(** * CodeEditor: value codec, debounced emitter and presentation state

    A shallow embedding of [admin/src/components/CodeEditor/CodeEditor.tsx]:
    the language marker codec built on [new RegExp('__(.+)__;')], the
    values computed by the first render, the [useState] cells of the
    component, its event handlers and the debounced stream that carries
    edits to the host's [onChange]. *)

From Stdlib Require Import List NArith Bool String Ascii Lia.
From Stdlib Require Import PeanoNat.
Import ListNotations.
Open Scope N_scope.
Open Scope list_scope.

(** ** JavaScript strings

    A JavaScript string is a sequence of UTF-16 code units.  Code units are
    kept as numbers, so that the four line terminators the regular
    expression's [.] refuses (U+000A, U+000D, U+2028, U+2029) are all single
    elements, as they are in the source language. *)

Module JS.

Definition char := N.
Definition str := list char.

(** A literal of the source text, as code units. *)
Definition lit (s : string) : str :=
  List.map N_of_ascii (list_ascii_of_string s).

(** The quotation mark U+0022. *)
Definition dquote : char := 34.

Fixpoint eqb (a b : str) : bool :=
  match a, b with
  | [], [] => true
  | x :: a', y :: b' => (x =? y) && eqb a' b'
  | _, _ => false
  end.

(** [ToBoolean] on a string: only the empty string is falsy. *)
Definition truthy (s : str) : bool :=
  match s with [] => false | _ :: _ => true end.

(** [ToBoolean] on [undefined | string] and on [null | string]. *)
Definition truthy_opt (o : option str) : bool :=
  match o with Some s => truthy s | None => false end.

(** [a || b] where [b] is a string: the first operand when it is truthy. *)
Definition or_else (a : option str) (b : str) : str :=
  match a with
  | Some s => if truthy s then s else b
  | None => b
  end.

(** [s] with the prefix [p] removed, when [s] starts with [p]. *)
Fixpoint strip_prefix (p s : str) : option str :=
  match p, s with
  | [], _ => Some s
  | x :: p', y :: s' => if x =? y then strip_prefix p' s' else None
  | _ :: _, [] => None
  end.

Definition startsWith (s p : str) : bool :=
  match strip_prefix p s with Some _ => true | None => false end.

(** [String.prototype.endsWith]: the last [length suffix] code units of
    [s] are [suffix]. *)
Definition endsWith (s suffix : str) : bool :=
  Nat.leb (List.length suffix) (List.length s)
  && eqb (skipn (Nat.sub (List.length s) (List.length suffix)) s) suffix.

(** [p] occurs somewhere in [s]. *)
Fixpoint includes (s p : str) : bool :=
  startsWith s p
  || match s with [] => false | _ :: s' => includes s' p end.

End JS.

Import JS.

(** ** The regular expression [__(.+)__;]

    [languageRegExp] has no flags.  [String.prototype.match] and
    [String.prototype.replace] with such an expression look for the leftmost
    position at which the pattern matches; at that position the greedy [.+]
    first takes every code unit up to the next line terminator and gives
    them back one at a time until [__;] follows. *)

Module RegExp.

(** What [.] refuses when the [s] flag is absent. *)
Definition isLineTerminator (c : char) : bool :=
  (c =? 10) || (c =? 13) || (c =? 8232) || (c =? 8233).

Definition opening : str := lit "__".
Definition closing : str := lit "__;".

(** [.*] followed by [__;], on the text [t]: the capture so far is
    extended by one more code unit whenever that leads to a match, and
    only otherwise is [__;] tried at the current position.  The result is
    what [.*] consumed and what is left after [__;]. *)
Fixpoint dot_star_closing (t : str) : option (str * str) :=
  let here := option_map (pair []) (strip_prefix closing t) in
  match t with
  | [] => here
  | c :: t' =>
      if isLineTerminator c then here
      else match dot_star_closing t' with
           | Some (cap, rest) => Some (c :: cap, rest)
           | None => here
           end
  end.

(** [(.+)__;]: one code unit that is no line terminator, then [.*__;]. *)
Definition dot_plus_closing (t : str) : option (str * str) :=
  match t with
  | [] => None
  | c :: t' =>
      if isLineTerminator c then None
      else match dot_star_closing t' with
           | Some (cap, rest) => Some (c :: cap, rest)
           | None => None
           end
  end.

(** The whole pattern tried at the start of [s]: group 1 and the text
    after the match. *)
Definition match_here (s : str) : option (str * str) :=
  match strip_prefix opening s with
  | Some t => dot_plus_closing t
  | None => None
  end.

(** The leftmost match in [s]: the text before it, group 1, and the text
    after it. *)
Fixpoint exec (s : str) : option (str * str * str) :=
  match match_here s with
  | Some (cap, post) => Some ([], cap, post)
  | None =>
      match s with
      | [] => None
      | c :: s' =>
          match exec s' with
          | Some (pre, cap, post) => Some (c :: pre, cap, post)
          | None => None
          end
      end
  end.

(** [s.match(languageRegExp)]: [null], or the array of the matched text
    and group 1. *)
Definition match_ (s : str) : option (list str) :=
  match exec s with
  | Some (_, cap, _) => Some [opening ++ cap ++ closing; cap]
  | None => None
  end.

(** [s.replace(languageRegExp, '')]: the leftmost match is cut out. *)
Definition replace_empty (s : str) : str :=
  match exec s with
  | Some (pre, _, post) => pre ++ post
  | None => s
  end.

(** Every code unit of [x] is one that [.] accepts. *)
Definition dotted (x : str) : bool :=
  forallb (fun c => negb (isLineTerminator c)) x.

(** [s] up to its first line terminator. *)
Fixpoint first_line (s : str) : str :=
  match s with
  | [] => []
  | c :: s' => if isLineTerminator c then [] else c :: first_line s'
  end.

(** [s] has no part of the shape [__x__;] with [x] a non-empty run of code
    units free of line terminators: the pattern matches nowhere in [s]. *)
Definition marker_free (s : str) : Prop :=
  forall pre x post,
    x <> [] -> dotted x = true ->
    s <> pre ++ opening ++ x ++ closing ++ post.

End RegExp.

(** ** The debounced stream *)

Module Stream.

(** Modelled from the spec: [Subject], [debounceTime] and [subscribe]
    belong to the rxjs package, which the component imports and whose
    code is not part of this repository.  Section 4.2 of the
    specification gives their contract: a pushed value replaces the one
    that waits and restarts the quiet period; when the quiet period has
    passed the waiting value is handed over once; unsubscribing drops the
    waiting value; a push to a stream without subscriber is lost.  Time
    is counted in milliseconds. *)
Definition dueTime : N := 1000.

(** Modelled from the spec: the subscription made by
    [subject.pipe(debounceTime(1000)).subscribe(handleOnChange)], with the
    value that waits and the milliseconds left of its quiet period. *)
Inductive t :=
| Unsubscribed
| Subscribed (waiting : option (str * N)).

(** Modelled from the spec: [subject.next(v)]. *)
Definition next (v : str) (s : t) : t :=
  match s with
  | Subscribed _ => Subscribed (Some (v, dueTime))
  | Unsubscribed => Unsubscribed
  end.

(** Modelled from the spec: [ms] milliseconds pass; the second component
    is the value handed to the subscriber, if the quiet period ended. *)
Definition elapse (ms : N) (s : t) : t * option str :=
  match s with
  | Subscribed (Some (v, remaining)) =>
      if remaining <=? ms then (Subscribed None, Some v)
      else (Subscribed (Some (v, remaining - ms)), None)
  | _ => (s, None)
  end.

(** Modelled from the spec: [subscription.unsubscribe()]. *)
Definition unsubscribe (s : t) : t := Unsubscribed.

(** Nothing waits in the stream. *)
Definition idle (s : t) : bool :=
  match s with Subscribed (Some _) => false | _ => true end.

(** The subscriber is still attached. *)
Definition active (s : t) : bool :=
  match s with Subscribed _ => true | Unsubscribed => false end.

End Stream.

(** ** The component *)

Module CodeEditor.

(** The entries of the language selector. *)
Definition languages : list str :=
  List.map lit
    [ "css"; "dockerfile"; "graphql"; "html"; "javascript"; "json";
      "kotlin"; "markdown"; "mysql"; "php"; "plaintext"; "powerquery";
      "powershell"; "python"; "scss"; "shell"; "sql"; "typescript";
      "xml"; "yaml" ]%string.

(** [attribute.options]; an absent field is [None] ([undefined]). *)
Record options := {
  opt_language : option str;
  opt_defaultValue : option str }.

(** The argument of [onChange]: [{ target: { name, value } }]. *)
Record change_event := {
  target_name : str;
  target_value : str }.

(** The part of [CodeEditorPropsT] the logic reads, the [value] prop
    apart: it changes during the life of the component and is kept with
    the state below.  [onChange] belongs to the host; what the component
    sees of a call is the [value] prop of the render that follows it.  So
    [onChange ev v] is that prop, [v] being the prop before the call: a host
    that stores the reported value while it handles the call answers
    [Some (target_value ev)], and a host that does not answers [v]. *)
Record props := {
  customField : str;
  attr_options : option options;
  name : str;
  onChange : change_event -> option str -> option str }.

Section Render.

Variable p : props.

Definition isJson : bool :=
  endsWith (customField p) (lit "code-editor-json").

(** [attribute?.options?.language] *)
Definition languageFromOptions : option str :=
  match attr_options p with
  | Some o => opt_language o
  | None => None
  end.

Definition defaultLanguage : str :=
  if isJson then lit "json" else lit "javascript".

(** [value ? value.match(languageRegExp) : null], then group 1 of the
    array when it has more than one element. *)
Definition languageFromValue (value : option str) : option str :=
  let m := match value with
           | Some s => if truthy s then RegExp.match_ s else None
           | None => None
           end in
  match m with
  | Some arr =>
      if Nat.ltb 1 (List.length arr) then Some (nth 1 arr []) else None
  | None => None
  end.

(** [attribute?.options?.defaultValue || undefined] *)
Definition defaultValue : option str :=
  match attr_options p with
  | Some o => if truthy_opt (opt_defaultValue o)
              then opt_defaultValue o else None
  | None => None
  end.

(** [value ? value.replace(languageRegExp, '') : ''] *)
Definition contentFromValue (value : option str) : str :=
  match value with
  | Some s => if truthy s then RegExp.replace_empty s else []
  | None => []
  end.

(** [typeof value === 'object'] on [null | string]: [typeof null] is
    ['object']. *)
Definition typeof_object (value : option str) : bool :=
  match value with None => true | Some _ => false end.

(** [Object.keys(value).length]; on a string the keys are its indices.
    It is only reached behind [value &&]. *)
Definition keys_length (value : option str) : nat :=
  match value with Some s => List.length s | None => O end.

Definition defaultValueForEditor (value : option str) : str :=
  let content := contentFromValue value in
  if (negb (truthy content) && truthy_opt defaultValue)
     || (isJson && typeof_object value && truthy_opt value
         && Nat.eqb (keys_length value) 0 && truthy_opt defaultValue)
  then or_else defaultValue content
  else content.

(** The first argument of [useState] for [language]:
    [languageFromOptions || languageFromValue || defaultLanguage]. *)
Definition initialLanguage (value : option str) : str :=
  or_else languageFromOptions
    (or_else (languageFromValue value) defaultLanguage).

(** What [handleChange] hands to the stream:
    [isJson || languageFromOptions ? valueToSet
      : `__${language}__;${valueToSet}`]. *)
Definition outgoing (language valueToSet : str) : str :=
  if isJson || truthy_opt languageFromOptions
  then valueToSet
  else lit "__" ++ language ++ lit "__;" ++ valueToSet.

(** Whether the language [Select] is rendered:
    [!isJson && !languageFromOptions]. *)
Definition selectorShown : bool :=
  negb isJson && negb (truthy_opt languageFromOptions).

End Render.

(** The codec of the stored value: decoding is what the render reads off
    [value], encoding is [outgoing]. *)
Definition decode (value : option str) : option str * str :=
  (languageFromValue value, contentFromValue value).

Definition encode (p : props) (language content : str) : str :=
  outgoing p language (or_else (Some content) []).

(** The [useState] cells of the component, the [value] prop the host
    currently passes, the subscription held by the mount effect, and the
    calls of the host's [onChange] so far (oldest first). *)
Record state := {
  value : option str;
  language : str;
  editorValue : str;
  fullScreen : bool;
  prevValue : option str;
  subscription : Stream.t;
  delivered : list change_event }.

Definition setValueProp (v : option str) (st : state) : state :=
  {| value := v; language := language st; editorValue := editorValue st;
     fullScreen := fullScreen st; prevValue := prevValue st;
     subscription := subscription st; delivered := delivered st |}.

Definition setLanguage (l : str) (st : state) : state :=
  {| value := value st; language := l; editorValue := editorValue st;
     fullScreen := fullScreen st; prevValue := prevValue st;
     subscription := subscription st; delivered := delivered st |}.

Definition setEditorValue (v : str) (st : state) : state :=
  {| value := value st; language := language st; editorValue := v;
     fullScreen := fullScreen st; prevValue := prevValue st;
     subscription := subscription st; delivered := delivered st |}.

(** [setFullScreen] called with an updater function. *)
Definition setFullScreen (f : bool -> bool) (st : state) : state :=
  {| value := value st; language := language st;
     editorValue := editorValue st; fullScreen := f (fullScreen st);
     prevValue := prevValue st; subscription := subscription st;
     delivered := delivered st |}.

Definition setPrevValue (v : option str) (st : state) : state :=
  {| value := value st; language := language st;
     editorValue := editorValue st; fullScreen := fullScreen st;
     prevValue := v; subscription := subscription st;
     delivered := delivered st |}.

Definition setSubscription (s : Stream.t) (st : state) : state :=
  {| value := value st; language := language st;
     editorValue := editorValue st; fullScreen := fullScreen st;
     prevValue := prevValue st; subscription := s;
     delivered := delivered st |}.

(** The host's [onChange] is called. *)
Definition callOnChange (ev : change_event) (st : state) : state :=
  {| value := value st; language := language st;
     editorValue := editorValue st; fullScreen := fullScreen st;
     prevValue := prevValue st; subscription := subscription st;
     delivered := delivered st ++ [ev] |}.

(** [prevValue !== value] on [null | string]. *)
Definition strictEq (a b : option str) : bool :=
  match a, b with
  | None, None => true
  | Some x, Some y => JS.eqb x y
  | _, _ => false
  end.

(** The body of the component up to its [return], as far as it writes
    state: [if (prevValue !== value) { setPrevValue(value);
    setEditorValue(...) }].  A render that sets state is run again; the
    second run finds [prevValue] equal to [value]. *)
Definition render (st : state) : state :=
  if negb (strictEq (prevValue st) (value st))
  then setEditorValue (contentFromValue (value st))
         (setPrevValue (value st) st)
  else st.

Inductive styled := FullScreenDiv | NormalDiv.

(** What the full-screen flag decides in the returned element: the
    wrapper ([StyledDiv]) and the [height] of the editor. *)
Definition layout (st : state) : styled * str :=
  (if fullScreen st then FullScreenDiv else NormalDiv,
   if fullScreen st then lit "80vh" else lit "30vh").

(** What can happen to a mounted component. *)
Inductive event :=
| Edit (v : option str)          (* the widget reports its text *)
| SelectLanguage (l : str)       (* the language selector *)
| ExpandClick                    (* the expand button *)
| NewValue (v : option str)      (* the host renders the field anew *)
| Elapse (ms : N)                (* time passes *)
| Unmount.                       (* the cleanup of the mount effect *)

Section Handlers.

Variable p : props.

(** [handleOnChange], the subscriber of the debounced stream:
    [onChange({ target: { name, value } })], then [setPrevValue(value)].
    The host's answer and [setPrevValue] reach the same render. *)
Definition handleOnChange (v : str) (st : state) : state :=
  let ev := {| target_name := name p; target_value := v |} in
  setPrevValue (Some v)
    (setValueProp (onChange p ev (value st)) (callOnChange ev st)).

(** [handleChange], the [onChange] of the editor widget. *)
Definition handleChange (v : option str) (st : state) : state :=
  let valueToSet := or_else v [] in
  let st' := setEditorValue valueToSet st in
  setSubscription
    (Stream.next (outgoing p (language st) valueToSet) (subscription st'))
    st'.

(** The first render and the mount effect: the cells take their initial
    values, the stream is subscribed to, and a non-empty initial
    content is pushed at once. *)
Definition mount (v : option str) : state :=
  let st := {| value := v;
               language := initialLanguage p v;
               editorValue := defaultValueForEditor p v;
               fullScreen := false;
               prevValue := v;
               subscription := Stream.Subscribed None;
               delivered := [] |} in
  if truthy (defaultValueForEditor p v)
  then handleChange (Some (defaultValueForEditor p v)) st
  else st.

Definition step (st : state) (e : event) : state :=
  match e with
  | Edit v => render (handleChange v st)
  | SelectLanguage l =>
      if selectorShown p then render (setLanguage l st) else st
  | ExpandClick => render (setFullScreen negb st)
  | NewValue v => render (setValueProp v st)
  | Elapse ms =>
      match Stream.elapse ms (subscription st) with
      | (s, Some v) => render (handleOnChange v (setSubscription s st))
      | (s, None) => setSubscription s st
      end
  | Unmount =>
      setSubscription (Stream.unsubscribe (subscription st)) st
  end.

Definition run (st : state) (es : list event) : state :=
  fold_left step es st.

End Handlers.

Definition isEdit (e : event) : bool :=
  match e with Edit _ => true | _ => false end.

(** A burst of edits: the text [c0] is reported, then each further text
    of [more] after the pause in milliseconds given with it, and then [quiet]
    milliseconds pass. *)
Definition burst (c0 : str) (more : list (N * str)) (quiet : N) : list event :=
  Edit (Some c0)
  :: flat_map (fun dc => [Elapse (fst dc); Edit (Some (snd dc))]) more
  ++ [Elapse quiet].

(** The last text of a burst. *)
Definition last_text (c0 : str) (more : list (N * str)) : str :=
  last (List.map snd more) c0.

(** [CodeEditorPropsT] promises [null | string] for [value], and the
    render tests [typeof value === 'object'] all the same, for a value that
    is an object with no keys.  On an object the render does not get that
    far: an object is truthy, so [value ? value.match(languageRegExp) : null]
    calls [value.match], which an object does not have. *)
Inductive js_value :=
| JNull
| JString (s : str)
| JObject (keys : list str).

Inductive outcome (A : Type) :=
| Returned (a : A)
| TypeError.

Arguments Returned {A} a.
Arguments TypeError {A}.

(** The initial language and the initial content of the first render. *)
Definition firstRender (p : props) (v : js_value) : outcome (str * str) :=
  match v with
  | JNull => Returned (initialLanguage p None, defaultValueForEditor p None)
  | JString s =>
      Returned (initialLanguage p (Some s), defaultValueForEditor p (Some s))
  | JObject _ => TypeError
  end.

End CodeEditor.


(** ** Reading a trace of events *)

Module Trace.
Import CodeEditor.

Definition isExpand (e : event) : bool :=
  match e with ExpandClick => true | _ => false end.

(** The languages chosen in the selector, oldest first. *)
Definition selections (es : list event) : list str :=
  flat_map (fun e => match e with SelectLanguage l => [l] | _ => [] end) es.

(** Every choice made in the selector is one of its [Option]s, which the
    component renders from [languages]. *)
Definition selectsListed (es : list event) : bool :=
  forallb (fun e => match e with
                    | SelectLanguage l => existsb (JS.eqb l) languages
                    | _ => true
                    end) es.

(** How often the widget reported its text, and how often the expand
    button was clicked. *)
Definition edits (es : list event) : nat := List.length (filter isEdit es).
Definition expandClicks (es : list event) : nat :=
  List.length (filter isExpand es).

(** The calls of [onChange] an event causes in the state [st]: the value
    that waits, when the event lets its quiet period end. *)
Definition fired (p : props) (st : state) (e : event) : list change_event :=
  match e with
  | Elapse ms =>
      match snd (Stream.elapse ms (subscription st)) with
      | Some w => [ {| target_name := name p; target_value := w |} ]
      | None => []
      end
  | _ => []
  end.

(** Whether a value waits in the stream, as a number. *)
Definition waiting (s : Stream.t) : nat :=
  if Stream.idle s then 0%nat else 1%nat.

(** The stored value has the marker at its very start. *)
Definition tagged (s : str) : Prop :=
  exists l c,
    s = lit "__" ++ l ++ lit "__;" ++ c
    /\ l <> [] /\ RegExp.dotted l = true.

(** The language, the value that waits and the values reported so far all
    carry a usable tag. *)
Definition wellTagged (st : state) : Prop :=
  (language st <> [] /\ RegExp.dotted (language st) = true)
  /\ (forall w r, subscription st = Stream.Subscribed (Some (w, r)) -> tagged w)
  /\ Forall (fun ev => tagged (target_value ev)) (delivered st).

End Trace.

(** ** Sample fields

    Concrete props and values on which the properties below are
    evaluated. *)

Module Samples.
Import CodeEditor.

(** A host that stores the reported value while it handles [onChange], and
    one that leaves the [value] prop as it is. *)
Definition storing (ev : change_event) (v : option str) : option str :=
  Some (target_value ev).

Definition ignoring (ev : change_event) (v : option str) : option str := v.

(** A text field without options. *)
Definition text_field : props :=
  {| customField := lit "plugin::strapi-code-editor-custom-field.code-editor-text";
     attr_options := None;
     name := lit "code";
     onChange := storing |}.

(** A text field whose language is fixed to [sql] by its options. *)
Definition sql_field : props :=
  {| customField := lit "plugin::strapi-code-editor-custom-field.code-editor-text";
     attr_options := Some {| opt_language := Some (lit "sql");
                             opt_defaultValue := None |};
     name := lit "query";
     onChange := storing |}.

(** The text [{"a":1}]. *)
Definition a1 : str := lit "{" ++ [dquote] ++ lit "a" ++ [dquote] ++ lit ":1}".

(** A JSON field with the default value [{"a":1}]. *)
Definition json_field : props :=
  {| customField := lit "plugin::strapi-code-editor-custom-field.code-editor-json";
     attr_options := Some {| opt_language := None;
                             opt_defaultValue := Some a1 |};
     name := lit "settings";
     onChange := ignoring |}.

Definition python_value : str := lit "__python__;print(1)".

End Samples.

(** * Properties *)

#[local] Arguments N.eqb : simpl never.
#[local] Arguments N.leb : simpl never.
#[local] Arguments N.sub : simpl never.

(** ** Strings *)

Lemma strip_prefix_app (p s : str) : strip_prefix p (p ++ s) = Some s.
Proof.
  induction p as [|x p IH]; simpl; [reflexivity|].
  now rewrite N.eqb_refl.
Qed.

Lemma strip_prefix_Some (p s r : str) :
  strip_prefix p s = Some r -> s = p ++ r.
Proof.
  revert s; induction p as [|x p IH]; intros s H; simpl in *.
  - now inversion H.
  - destruct s as [|y s]; [discriminate|].
    destruct (N.eqb_spec x y) as [->|]; [|discriminate].
    now rewrite (IH _ H).
Qed.

Lemma eqb_eq (a b : str) : JS.eqb a b = true <-> a = b.
Proof.
  revert b; induction a as [|x a IH]; intros [|y b]; simpl;
    try (split; (discriminate || reflexivity)).
  rewrite andb_true_iff, N.eqb_eq, IH.
  split; [intros [-> ->]; reflexivity | intros H; inversion H; auto].
Qed.

Lemma eqb_refl (a : str) : JS.eqb a a = true.
Proof. now apply eqb_eq. Qed.

Lemma or_else_content (c : str) : or_else (Some c) [] = c.
Proof. now destruct c. Qed.

(** ** The regular expression *)

Module RegExpFacts.
Import RegExp.

Example exec_python :
  exec (lit "__python__;print(1)") = Some ([], lit "python", lit "print(1)").
Proof. reflexivity. Qed.

Example exec_greedy :
  exec (lit "__a__;b__;c") = Some ([], lit "a__;b", lit "c").
Proof. reflexivity. Qed.

Example exec_unanchored :
  exec (lit "xx__py__;code") = Some (lit "xx", lit "py", lit "code").
Proof. reflexivity. Qed.

Example exec_empty_tag : exec (lit "____;x") = None.
Proof. reflexivity. Qed.

Example exec_second_line :
  exec (lit "__a__;b" ++ [10] ++ lit "c__;d") = Some ([], lit "a", lit "b" ++ [10] ++ lit "c__;d").
Proof. reflexivity. Qed.

Example endsWith_json :
  endsWith (lit "plugin::strapi-code-editor-custom-field.code-editor-json")
    (lit "code-editor-json") = true.
Proof. reflexivity. Qed.


Lemma closing_not_terminated (c : char) (t : str) :
  isLineTerminator c = true -> strip_prefix closing (c :: t) = None.
Proof.
  intros H. change closing with [95; 95; 59]. simpl.
  destruct (N.eqb_spec 95 c) as [<-|]; [discriminate H | reflexivity].
Qed.

Lemma closing_first_line (t : str) :
  startsWith (first_line t) closing = startsWith t closing.
Proof.
  unfold startsWith. change closing with [95; 95; 59].
  destruct t as [|a [|b [|c t]]]; simpl; try reflexivity;
    repeat match goal with
           | |- context [N.eqb ?x ?y] =>
               destruct (N.eqb_spec x y); subst; simpl;
               try reflexivity; try congruence
           | |- context [isLineTerminator ?x] =>
               destruct (isLineTerminator x) eqn:?; simpl;
               try reflexivity; try discriminate
           end.
Qed.

Lemma dot_star_cons (c : char) (t : str) :
  dot_star_closing (c :: t) =
  let here := option_map (pair []) (strip_prefix closing (c :: t)) in
  if isLineTerminator c then here
  else match dot_star_closing t with
       | Some (cap, rest) => Some (c :: cap, rest)
       | None => here
       end.
Proof. reflexivity. Qed.

(** What [dot_star_closing] returns is a way to split its argument. *)
Lemma dot_star_sound (t cap rest : str) :
  dot_star_closing t = Some (cap, rest) ->
  t = cap ++ closing ++ rest /\ dotted cap = true.
Proof.
  revert cap rest; induction t as [|c t IH]; intros cap rest H.
  - discriminate H.
  - rewrite dot_star_cons in H. cbv zeta in H.
    assert (Hhere : option_map (pair []) (strip_prefix closing (c :: t))
                    = Some (cap, rest) ->
                    c :: t = cap ++ closing ++ rest /\ dotted cap = true).
    { intros E. destruct (strip_prefix closing (c :: t)) as [r|] eqn:S;
        [|discriminate E].
      inversion E; subst. apply strip_prefix_Some in S. now split. }
    destruct (isLineTerminator c) eqn:L; [now apply Hhere|].
    destruct (dot_star_closing t) as [[cap' rest']|] eqn:R;
      [|now apply Hhere].
    inversion H; subst. destruct (IH _ _ eq_refl) as [-> D].
    split; [reflexivity|]. simpl. now rewrite L.
Qed.

(** It finds a split whenever there is one. *)
Lemma dot_star_complete (cap rest : str) :
  dotted cap = true -> dot_star_closing (cap ++ closing ++ rest) <> None.
Proof.
  induction cap as [|c cap IH]; intros D.
  - change ([] ++ closing ++ rest) with (95 :: 95 :: 59 :: rest).
    rewrite dot_star_cons. cbv zeta.
    change (isLineTerminator 95) with false. cbv iota.
    destruct (dot_star_closing (95 :: 59 :: rest)) as [[? ?]|];
      [discriminate|].
    change (strip_prefix closing (95 :: 95 :: 59 :: rest)) with (Some rest).
    discriminate.
  - simpl in D. apply andb_true_iff in D as [L D].
    apply negb_true_iff in L.
    change ((c :: cap) ++ closing ++ rest) with (c :: cap ++ closing ++ rest).
    rewrite dot_star_cons. cbv zeta. rewrite L.
    specialize (IH D).
    destruct (dot_star_closing (cap ++ closing ++ rest)) as [[? ?]|];
      [discriminate | contradiction].
Qed.

(** Without [__;] on the first line there is nothing to find. *)
Lemma dot_star_first_line (t : str) :
  includes (first_line t) closing = false -> dot_star_closing t = None.
Proof.
  induction t as [|c t IH]; intros H; [reflexivity|].
  rewrite dot_star_cons. cbv zeta.
  destruct (isLineTerminator c) eqn:L.
  - now rewrite closing_not_terminated.
  - pose proof (closing_first_line (c :: t)) as F.
    cbn [first_line] in H, F. rewrite L in H, F.
    cbn [includes] in H. apply orb_false_iff in H as [H1 H2].
    rewrite (IH H2). rewrite H1 in F. unfold startsWith in F.
    destruct (strip_prefix closing (c :: t)); [discriminate F | reflexivity].
Qed.

(** The greedy [.*] stops at the last [__;] of the line. *)
Lemma dot_star_last (cap rest : str) :
  dotted cap = true ->
  dot_star_closing rest = None ->
  dot_star_closing (cap ++ closing ++ rest) = Some (cap, rest).
Proof.
  intros D R. induction cap as [|c cap IH].
  - change ([] ++ closing ++ rest) with (95 :: 95 :: 59 :: rest).
    rewrite !dot_star_cons. cbv zeta.
    change (isLineTerminator 95) with false.
    change (isLineTerminator 59) with false. cbv iota. rewrite R.
    change (strip_prefix closing (59 :: rest)) with (@None str).
    change (strip_prefix closing (95 :: 59 :: rest)) with (@None str).
    reflexivity.
  - simpl in D. apply andb_true_iff in D as [L D].
    apply negb_true_iff in L.
    change ((c :: cap) ++ closing ++ rest) with (c :: cap ++ closing ++ rest).
    rewrite dot_star_cons. cbv zeta. now rewrite L, (IH D).
Qed.

Lemma match_here_sound (s cap post : str) :
  match_here s = Some (cap, post) ->
  s = opening ++ cap ++ closing ++ post /\ cap <> [] /\ dotted cap = true.
Proof.
  unfold match_here. destruct (strip_prefix opening s) as [t|] eqn:S;
    [|discriminate].
  apply strip_prefix_Some in S. subst s.
  destruct t as [|c t]; [discriminate|]. unfold dot_plus_closing.
  destruct (isLineTerminator c) eqn:L; [discriminate|].
  destruct (dot_star_closing t) as [[cap' rest]|] eqn:R; [|discriminate].
  intros H; inversion H; subst. destruct (dot_star_sound _ _ _ R) as [-> D].
  repeat split; [discriminate|]. simpl. now rewrite L.
Qed.

Lemma match_here_complete (x post : str) :
  x <> [] -> dotted x = true ->
  match_here (opening ++ x ++ closing ++ post) <> None.
Proof.
  intros Hx D. unfold match_here. rewrite strip_prefix_app.
  destruct x as [|c x]; [contradiction|].
  simpl in D. apply andb_true_iff in D as [L D]. apply negb_true_iff in L.
  change ((c :: x) ++ closing ++ post) with (c :: x ++ closing ++ post).
  unfold dot_plus_closing. rewrite L.
  pose proof (dot_star_complete x post D) as C.
  destruct (dot_star_closing (x ++ closing ++ post)) as [[? ?]|];
    [discriminate | contradiction].
Qed.

Lemma match_here_last (x post : str) :
  x <> [] -> dotted x = true ->
  includes (first_line post) closing = false ->
  match_here (opening ++ x ++ closing ++ post) = Some (x, post).
Proof.
  intros Hx D F. unfold match_here. rewrite strip_prefix_app.
  destruct x as [|c x]; [contradiction|].
  simpl in D. apply andb_true_iff in D as [L D]. apply negb_true_iff in L.
  change ((c :: x) ++ closing ++ post) with (c :: x ++ closing ++ post).
  unfold dot_plus_closing. rewrite L.
  now rewrite (dot_star_last x post D (dot_star_first_line post F)).
Qed.

Lemma exec_eq (s : str) :
  exec s =
  match match_here s with
  | Some (cap, post) => Some ([], cap, post)
  | None =>
      match s with
      | [] => None
      | c :: s' =>
          match exec s' with
          | Some (pre, cap, post) => Some (c :: pre, cap, post)
          | None => None
          end
      end
  end.
Proof. destruct s; reflexivity. Qed.

(** A match of the pattern is a part [__x__;] of the text, with [x] not
    empty and free of line terminators. *)
Lemma exec_sound (s pre cap post : str) :
  exec s = Some (pre, cap, post) ->
  s = pre ++ opening ++ cap ++ closing ++ post
  /\ cap <> [] /\ dotted cap = true.
Proof.
  revert pre; induction s as [|c s IH]; intros pre H; rewrite exec_eq in H.
  - destruct (match_here []) as [[? ?]|] eqn:M; [|discriminate].
    inversion H; subst. now apply match_here_sound.
  - destruct (match_here (c :: s)) as [[? ?]|] eqn:M.
    + inversion H; subst. now apply match_here_sound.
    + destruct (exec s) as [[[pre' cap'] post']|]; [|discriminate].
      inversion H; subst. destruct (IH _ eq_refl) as (-> & ? & ?).
      now repeat split.
Qed.

(** Wherever such a part exists, the pattern matches. *)
Lemma exec_complete (pre x post : str) :
  x <> [] -> dotted x = true ->
  exec (pre ++ opening ++ x ++ closing ++ post) <> None.
Proof.
  intros Hx D. induction pre as [|c pre IH].
  - pose proof (match_here_complete x post Hx D) as C.
    change ([] ++ opening ++ x ++ closing ++ post)
      with (opening ++ x ++ closing ++ post).
    rewrite exec_eq.
    destruct (match_here (opening ++ x ++ closing ++ post)) as [[? ?]|];
      [discriminate | contradiction].
  - rewrite exec_eq.
    destruct (match_here ((c :: pre) ++ opening ++ x ++ closing ++ post))
      as [[? ?]|]; [discriminate|].
    change ((c :: pre) ++ opening ++ x ++ closing ++ post)
      with (c :: pre ++ opening ++ x ++ closing ++ post).
    cbv iota.
    destruct (exec (pre ++ opening ++ x ++ closing ++ post)) as [[[? ?] ?]|];
      [discriminate | contradiction].
Qed.

Lemma exec_None_iff (s : str) : exec s = None <-> marker_free s.
Proof.
  split.
  - intros H pre x post Hx D ->. now apply (exec_complete pre x post Hx D).
  - intros F. destruct (exec s) as [[[pre cap] post]|] eqn:E; [|reflexivity].
    destruct (exec_sound _ _ _ _ E) as (-> & Hx & D).
    exfalso. now apply (F pre cap post Hx D).
Qed.

(** A value that starts with a marker whose tag is followed by no further
    [__;] on its line is split at that marker. *)
Lemma exec_tagged (x rest : str) :
  x <> [] -> dotted x = true ->
  includes (first_line rest) closing = false ->
  exec (opening ++ x ++ closing ++ rest) = Some ([], x, rest).
Proof.
  intros Hx D F. rewrite exec_eq. now rewrite (match_here_last x rest Hx D F).
Qed.

End RegExpFacts.

(** ** The value codec *)

Import CodeEditor.

Section CodecFacts.

Import RegExp RegExpFacts.

Lemma decode_match (s pre cap post : str) :
  exec s = Some (pre, cap, post) -> decode (Some s) = (Some cap, pre ++ post).
Proof.
  intros E. destruct s as [|c s]; [discriminate E|].
  unfold decode, languageFromValue, contentFromValue, match_, replace_empty.
  cbn [truthy]. now rewrite E.
Qed.

Lemma decode_no_match (s : str) :
  exec s = None -> decode (Some s) = (None, s).
Proof.
  intros E. destruct s as [|c s]; [reflexivity|].
  unfold decode, languageFromValue, contentFromValue, match_, replace_empty.
  cbn [truthy]. now rewrite E.
Qed.

Lemma decode_tagged (x rest : str) :
  x <> [] -> dotted x = true ->
  includes (first_line rest) closing = false ->
  decode (Some (lit "__" ++ x ++ lit "__;" ++ rest)) = (Some x, rest).
Proof.
  intros Hx D F. exact (decode_match _ _ _ _ (exec_tagged x rest Hx D F)).
Qed.

Lemma decode_marker_free (s : str) :
  marker_free s -> decode (Some s) = (None, s).
Proof. intros F. apply decode_no_match. now apply exec_None_iff. Qed.

(** Every value is in one of the two cases. *)
Lemma decode_cases (s : str) :
  decode (Some s) = (None, s)
  \/ exists pre x post,
       s = pre ++ lit "__" ++ x ++ lit "__;" ++ post
       /\ x <> [] /\ dotted x = true
       /\ decode (Some s) = (Some x, pre ++ post).
Proof.
  destruct (exec s) as [[[pre cap] post]|] eqn:E.
  - right. exists pre, cap, post.
    destruct (exec_sound _ _ _ _ E) as (-> & Hx & D).
    repeat split; try assumption. now apply decode_match.
  - left. now apply decode_no_match.
Qed.

(** The tag a value decodes to is never the empty string. *)
Lemma languageFromValue_truthy (v : option str) (l : str) :
  languageFromValue v = Some l -> truthy l = true.
Proof.
  destruct v as [s|]; [|discriminate]. intros E.
  destruct (decode_cases s) as [H | (pre & x & post & _ & Hx & _ & H)];
    unfold decode in H; injection H as H1 H2; rewrite E in H1.
  - discriminate H1.
  - injection H1 as ->. now destruct x.
Qed.

(** The entries of the selector are usable as tags. *)
Lemma languages_dotted (l : str) :
  In l languages -> l <> [] /\ dotted l = true.
Proof.
  assert (A : forallb (fun l => truthy l && dotted l) languages = true)
    by (vm_compute; reflexivity).
  intros H. apply (proj1 (forallb_forall _ _) A) in H.
  apply andb_true_iff in H as [T D]. split; [|exact D].
  now destruct l.
Qed.

End CodecFacts.

(** ** The first render *)

Section FirstRender.

Variable p : props.

Lemma handleChange_fields (v : option str) (st : state) :
  value (handleChange p v st) = value st
  /\ language (handleChange p v st) = language st
  /\ editorValue (handleChange p v st) = or_else v []
  /\ fullScreen (handleChange p v st) = fullScreen st
  /\ prevValue (handleChange p v st) = prevValue st
  /\ delivered (handleChange p v st) = delivered st
  /\ subscription (handleChange p v st)
     = Stream.next (outgoing p (language st) (or_else v [])) (subscription st).
Proof. now repeat split. Qed.

Lemma mount_language (v : option str) :
  language (mount p v) = initialLanguage p v.
Proof. unfold mount. now destruct (truthy (defaultValueForEditor p v)). Qed.

Lemma mount_editorValue (v : option str) :
  editorValue (mount p v) = defaultValueForEditor p v.
Proof.
  unfold mount. destruct (truthy (defaultValueForEditor p v)) eqn:T;
    [|reflexivity].
  cbn. now destruct (defaultValueForEditor p v).
Qed.

Lemma mount_delivered (v : option str) : delivered (mount p v) = [].
Proof. unfold mount. now destruct (truthy (defaultValueForEditor p v)). Qed.

Lemma mount_subscription (v : option str) :
  subscription (mount p v) =
  if truthy (defaultValueForEditor p v)
  then Stream.Subscribed
         (Some (outgoing p (initialLanguage p v) (defaultValueForEditor p v),
                Stream.dueTime))
  else Stream.Subscribed None.
Proof.
  unfold mount. destruct (truthy (defaultValueForEditor p v)) eqn:T;
    [|reflexivity].
  cbn. now destruct (defaultValueForEditor p v).
Qed.

(** Without a configured language, the tag of the stored value is the
    initial language. *)
Lemma initialLanguage_from_value (v : option str) (l : str) :
  truthy_opt (languageFromOptions p) = false ->
  languageFromValue v = Some l ->
  initialLanguage p v = l.
Proof.
  intros C V. unfold initialLanguage, or_else.
  rewrite V, (languageFromValue_truthy _ _ V).
  destruct (languageFromOptions p) as [l'|]; [|reflexivity].
  cbn [truthy_opt] in C. now rewrite C.
Qed.

(** A non-empty decoded content is the initial content, whatever the
    options say. *)
Lemma content_kept (s : str) :
  truthy (contentFromValue (Some s)) = true ->
  defaultValueForEditor p (Some s) = contentFromValue (Some s).
Proof.
  intros T. unfold defaultValueForEditor. rewrite T.
  cbn [negb andb typeof_object orb]. now rewrite andb_false_r.
Qed.

(** An empty decoded content is replaced by the configured default value. *)
Lemma default_substituted (v : option str) (o : options) (d : str) :
  attr_options p = Some o -> opt_defaultValue o = Some d ->
  contentFromValue v = [] ->
  defaultValueForEditor p v = d.
Proof.
  intros Ho Hd Hc. unfold defaultValueForEditor, defaultValue.
  rewrite Ho, Hd, Hc. destruct d as [|c d]; cbn.
  - now rewrite andb_false_r.
  - reflexivity.
Qed.

End FirstRender.

(** ** Decoding and encoding *)

Section Codec.

Import RegExp RegExpFacts Samples.

(** Decoding, case by case.  A stored value [__<lang>__;<rest>] yields
    [(lang, rest)] when [lang] is not empty and has no line terminator and
    the first line of [rest] has no further [__;].  A value in which the
    pattern matches nowhere decodes to [(null, value)], and [null] decodes
    to [(null, "")].  Every other value carries a part [__x__;] that the
    pattern takes for the marker.  The stored value [__python__;print(1)]
    gives the initial content [print(1)] and, when no language is
    configured, the initial language [python]. *)
Lemma decode_marker_form :
  (forall lang rest : str,
      lang <> [] -> dotted lang = true ->
      includes (first_line rest) closing = false ->
      decode (Some (lit "__" ++ lang ++ lit "__;" ++ rest)) = (Some lang, rest))
  /\ (forall v : str, marker_free v -> decode (Some v) = (None, v))
  /\ (forall v : str,
        ~ marker_free v ->
        exists pre x post,
          v = pre ++ lit "__" ++ x ++ lit "__;" ++ post
          /\ x <> [] /\ dotted x = true
          /\ decode (Some v) = (Some x, pre ++ post))
  /\ decode None = (None, [])
  /\ (forall p : props,
        truthy_opt (languageFromOptions p) = false ->
        language (mount p (Some python_value)) = lit "python")
  /\ (forall p : props,
        editorValue (mount p (Some python_value)) = lit "print(1)").
Proof.
  split; [exact decode_tagged|].
  split; [exact decode_marker_free|].
  split.
  { intros v F. destruct (decode_cases v) as [H | H]; [|exact H].
    exfalso. apply F. apply exec_None_iff.
    destruct (exec v) as [[[pre cap] post]|] eqn:E; [|reflexivity].
    rewrite (decode_match _ _ _ _ E) in H. discriminate H. }
  split; [reflexivity|].
  split.
  - intros p H. rewrite mount_language. unfold initialLanguage.
    destruct (languageFromOptions p) as [l|]; [|reflexivity].
    cbn [truthy_opt] in H. unfold or_else at 1. now rewrite H.
  - intros p. rewrite mount_editorValue. now rewrite content_kept.
Qed.

(** C3 (the code at the failing inputs).  For the stored value
    [__python__;print(1)] and for [null] the decoder does what the claim
    says.  The stored value [__a__;b__;c] has the marker form with the
    language [a] and the rest [b__;c]; the greedy [.+] runs on to the last
    [__;] of the line and the decoder gives [a__;b] and [c].  The stored
    value [xx__py__;code] does not have the marker form; the pattern is not
    tied to the start of the value, finds a marker inside it, and the
    decoder gives [py] and [xxcode] instead of [null] and the value. *)
Theorem decode_marker_form_broken :
  decode (Some python_value) = (Some (lit "python"), lit "print(1)")
  /\ decode None = (None, [])
  /\ lit "__a__;b__;c" = lit "__" ++ lit "a" ++ lit "__;" ++ lit "b__;c"
  /\ decode (Some (lit "__a__;b__;c")) = (Some (lit "a__;b"), lit "c")
  /\ decode (Some (lit "__a__;b__;c")) <> (Some (lit "a"), lit "b__;c")
  /\ startsWith (lit "xx__py__;code") (lit "__") = false
  /\ decode (Some (lit "xx__py__;code")) = (Some (lit "py"), lit "xxcode")
  /\ decode (Some (lit "xx__py__;code")) <> (None, lit "xx__py__;code").
Proof. repeat split; discriminate. Qed.

(** X14.  Where the round trip of the codec holds.  For a language [l] of
    the selector and a content [c]: when a tag is written (neither JSON
    mode nor a configured language) and the first line of [c] has no [__;],
    decoding the encoded pair yields [(l, c)]; when no tag is written and
    [c] has no part that the marker pattern matches, decoding the encoded
    value yields [(null, c)]. *)
Theorem codec_roundtrip (p : props) (l c : str) :
  In l languages ->
  (isJson p || truthy_opt (languageFromOptions p) = false ->
   includes (first_line c) closing = false ->
   decode (Some (encode p l c)) = (Some l, c))
  /\ (isJson p || truthy_opt (languageFromOptions p) = true ->
      marker_free c ->
      decode (Some (encode p l c)) = (None, c)).
Proof.
  intros Hl. destruct (languages_dotted l Hl) as [Hne D].
  unfold encode, outgoing. rewrite or_else_content.
  split; intros M H; rewrite M.
  - now apply decode_tagged.
  - now apply decode_marker_free.
Qed.

Lemma codec_roundtrip_witness :
  decode (Some (encode text_field (lit "python") (lit "print(1)")))
  = (Some (lit "python"), lit "print(1)")
  /\ decode (Some (encode json_field (lit "json") a1)) = (None, a1).
Proof.
  split.
  - apply (codec_roundtrip text_field (lit "python") (lit "print(1)"));
      [vm_compute; tauto | reflexivity | reflexivity].
  - apply (codec_roundtrip json_field (lit "json") a1);
      [vm_compute; tauto | reflexivity |].
    apply exec_None_iff. reflexivity.
Defined.

(** C1 (the code at the failing inputs).  In a text field without
    options the content [echo __DIR__;], written with the language [php],
    is stored as [__php__;echo __DIR__;] and read back as the language
    [php__;echo __DIR] with an empty content; the content [a__;b], written
    with [python], is read back as the language [python__;a] and the
    content [b].  In JSON mode the content [__a__;b] is stored as it is and
    read back as the language [a] and the content [b].  In each case the
    pattern of the decoder, greedy and not tied to the start of the value,
    takes part of the content for the marker. *)
Theorem codec_roundtrip_broken :
  In (lit "php") languages /\ In (lit "python") languages
  /\ isJson text_field || truthy_opt (languageFromOptions text_field) = false
  /\ encode text_field (lit "php") (lit "echo __DIR__;")
     = lit "__php__;echo __DIR__;"
  /\ decode (Some (encode text_field (lit "php") (lit "echo __DIR__;")))
     = (Some (lit "php__;echo __DIR"), [])
  /\ decode (Some (encode text_field (lit "php") (lit "echo __DIR__;")))
     <> (Some (lit "php"), lit "echo __DIR__;")
  /\ decode (Some (encode text_field (lit "python") (lit "a__;b")))
     = (Some (lit "python__;a"), lit "b")
  /\ decode (Some (encode text_field (lit "python") (lit "a__;b")))
     <> (Some (lit "python"), lit "a__;b")
  /\ isJson json_field = true
  /\ encode json_field (lit "json") (lit "__a__;b") = lit "__a__;b"
  /\ decode (Some (encode json_field (lit "json") (lit "__a__;b")))
     = (Some (lit "a"), lit "b")
  /\ decode (Some (encode json_field (lit "json") (lit "__a__;b")))
     <> (None, lit "__a__;b").
Proof.
  split; [vm_compute; tauto|]. split; [vm_compute; tauto|].
  repeat split; discriminate.
Qed.

End Codec.

(** ** Initial language and initial content *)

Section Initial.

Import RegExp RegExpFacts Samples.

(** C6.  The initial language is the configured language when there is
    one (a non-empty string); otherwise the language decoded from the
    stored value when it carries one; otherwise [json] for a JSON field and
    [javascript] for any other field. *)
Theorem initial_language_priority (p : props) (v : option str) :
  (forall l, languageFromOptions p = Some l -> truthy l = true ->
             language (mount p v) = l)
  /\ (truthy_opt (languageFromOptions p) = false ->
      forall l, languageFromValue v = Some l -> language (mount p v) = l)
  /\ (truthy_opt (languageFromOptions p) = false ->
      languageFromValue v = None -> isJson p = true ->
      language (mount p v) = lit "json")
  /\ (truthy_opt (languageFromOptions p) = false ->
      languageFromValue v = None -> isJson p = false ->
      language (mount p v) = lit "javascript").
Proof.
  rewrite mount_language. split; [|split].
  - intros l E T. unfold initialLanguage, or_else. now rewrite E, T.
  - intros C l V. now apply initialLanguage_from_value.
  - unfold initialLanguage, defaultLanguage, or_else. split.
    + intros C -> ->. destruct (languageFromOptions p) as [l'|]; [|reflexivity].
      cbn [truthy_opt] in C. now rewrite C.
    + intros C -> ->. destruct (languageFromOptions p) as [l'|]; [|reflexivity].
      cbn [truthy_opt] in C. now rewrite C.
Qed.

Lemma initial_language_priority_witness :
  language (mount sql_field (Some python_value)) = lit "sql"
  /\ language (mount text_field (Some python_value)) = lit "python"
  /\ language (mount json_field (Some (lit "{}"))) = lit "json"
  /\ language (mount text_field None) = lit "javascript".
Proof.
  split; [|split; [|split]].
  - apply (proj1 (initial_language_priority sql_field (Some python_value)));
      reflexivity.
  - apply (proj1 (proj2
             (initial_language_priority text_field (Some python_value))));
      reflexivity.
  - apply (proj1 (proj2 (proj2
             (initial_language_priority json_field (Some (lit "{}"))))));
      reflexivity.
  - apply (proj2 (proj2 (proj2
             (initial_language_priority text_field None))));
      reflexivity.
Defined.

(** C10 (as amended).  When no language is configured, a stored value
    [__<x>__;<rest>] whose [x] is not empty and has no line terminator,
    and whose [rest] has no [__;] on its first line, gives the initial
    language [x]; [x] is not looked up among the languages of the
    selector, so that [__klingon__;nuqneH] gives the language [klingon]. *)
Theorem initial_language_unchecked :
  (forall (p : props) (x rest : str),
      truthy_opt (languageFromOptions p) = false ->
      x <> [] -> dotted x = true ->
      includes (first_line rest) closing = false ->
      language (mount p (Some (lit "__" ++ x ++ lit "__;" ++ rest))) = x)
  /\ ~ In (lit "klingon") languages
  /\ language (mount text_field (Some (lit "__klingon__;nuqneH")))
     = lit "klingon".
Proof.
  split; [|split].
  - intros p x rest C Hx D F.
    rewrite mount_language. apply initialLanguage_from_value; [exact C|].
    pose proof (decode_tagged x rest Hx D F) as E.
    unfold decode in E. now injection E.
  - vm_compute. intuition discriminate.
  - reflexivity.
Qed.

Lemma initial_language_unchecked_witness :
  language (mount json_field (Some (lit "__cobol__;MOVE A TO B"))) = lit "cobol".
Proof.
  apply (proj1 initial_language_unchecked json_field
           (lit "cobol") (lit "MOVE A TO B"));
    [reflexivity | discriminate | reflexivity | reflexivity].
Defined.

(** C10 (as stated) fails: with the language [sql] configured, the stored
    value [__foo__;bar] gives the initial language [sql]; and without a
    configured language, [__a__;b__;c], which has the form with [a] for
    [x], gives the initial language [a__;b]. *)
Lemma initial_language_unchecked_counterexample :
  language (mount sql_field (Some (lit "__" ++ lit "foo" ++ lit "__;" ++ lit "bar")))
  = lit "sql"
  /\ language (mount sql_field (Some (lit "__" ++ lit "foo" ++ lit "__;" ++ lit "bar")))
     <> lit "foo"
  /\ language (mount text_field (Some (lit "__" ++ lit "a" ++ lit "__;" ++ lit "b__;c")))
     = lit "a__;b"
  /\ language (mount text_field (Some (lit "__" ++ lit "a" ++ lit "__;" ++ lit "b__;c")))
     <> lit "a".
Proof. repeat split; discriminate. Qed.

(** C7 (the code at the failing input).  The JSON field with the default
    value [{"a":1}] and the stored string [{}] starts with the content
    [{}]: the content is not empty, and the test for an empty object does
    not apply to a string.  When the host passes the empty object itself,
    the render stops with a [TypeError] before that test is reached. *)
Theorem json_empty_object_content :
  isJson json_field = true
  /\ defaultValue json_field = Some a1
  /\ editorValue (mount json_field (Some (lit "{}"))) = lit "{}"
  /\ editorValue (mount json_field (Some (lit "{}"))) <> a1
  /\ firstRender json_field (JString (lit "{}"))
     = Returned (lit "json", lit "{}")
  /\ firstRender json_field (JObject []) = TypeError.
Proof. repeat split; discriminate. Qed.

(** The general rule of C7 holds: an empty decoded content gives way to
    the configured default value. *)
Lemma initial_content_default (p : props) (v : option str) (o : options) (d : str) :
  attr_options p = Some o -> opt_defaultValue o = Some d ->
  snd (decode v) = [] ->
  editorValue (mount p v) = d.
Proof.
  intros Ho Hd Hc. rewrite mount_editorValue.
  now apply (default_substituted p v o d).
Qed.

End Initial.

(** ** Encoding an edit *)

Section Encoding.

Import Samples.

Variable p : props.

(** C4.  [handleChange] on a subscribed stream leaves the content itself
    waiting in the stream when JSON mode is active or a language is
    configured, and [__<language>__;<content>] with the current language
    otherwise; the content also becomes the editor's text. *)
Theorem handleChange_pushes (st : state) (c : str) :
  Stream.active (subscription st) = true ->
  editorValue (handleChange p (Some c) st) = c
  /\ (isJson p || truthy_opt (languageFromOptions p) = true ->
      subscription (handleChange p (Some c) st)
      = Stream.Subscribed (Some (c, 1000)))
  /\ (isJson p || truthy_opt (languageFromOptions p) = false ->
      subscription (handleChange p (Some c) st)
      = Stream.Subscribed
          (Some (lit "__" ++ language st ++ lit "__;" ++ c, 1000))).
Proof.
  intros A.
  destruct (handleChange_fields p (Some c) st) as (_ & _ & E & _ & _ & _ & S).
  rewrite or_else_content in E, S. rewrite S. unfold outgoing.
  destruct (subscription st) as [|w]; [discriminate A|].
  split; [exact E|]. split; intros ->; reflexivity.
Qed.

End Encoding.

Lemma handleChange_pushes_witness :
  subscription (handleChange Samples.json_field (Some Samples.a1)
                  (mount Samples.json_field None))
  = Stream.Subscribed (Some (Samples.a1, 1000))
  /\ subscription (handleChange Samples.text_field (Some (lit "x = 1"))
                    (mount Samples.text_field (Some Samples.python_value)))
     = Stream.Subscribed (Some (lit "__python__;x = 1", 1000)).
Proof.
  split.
  - apply (handleChange_pushes Samples.json_field
             (mount Samples.json_field None) Samples.a1); reflexivity.
  - apply (handleChange_pushes Samples.text_field
             (mount Samples.text_field (Some Samples.python_value))
             (lit "x = 1")); reflexivity.
Defined.

(** ** The state between events *)

Section Settled.

Variable p : props.

Lemma strictEq_refl (a : option str) : strictEq a a = true.
Proof. destruct a; [apply eqb_refl | reflexivity]. Qed.

(** The render touches the editor's text and [prevValue] only. *)
Lemma render_frame (st : state) :
  value (render st) = value st
  /\ language (render st) = language st
  /\ fullScreen (render st) = fullScreen st
  /\ subscription (render st) = subscription st
  /\ delivered (render st) = delivered st.
Proof.
  unfold render. now destruct (negb (strictEq (prevValue st) (value st))).
Qed.

(** After a render [prevValue] is the [value] prop. *)
Lemma render_settles (st : state) :
  strictEq (prevValue (render st)) (value (render st)) = true.
Proof.
  unfold render. destruct (strictEq (prevValue st) (value st)) eqn:E.
  - exact E.
  - apply strictEq_refl.
Qed.

Lemma render_settled (st : state) :
  strictEq (prevValue st) (value st) = true -> render st = st.
Proof. intros E. unfold render. now rewrite E. Qed.

Lemma mount_settled (v : option str) :
  strictEq (prevValue (mount p v)) (value (mount p v)) = true.
Proof.
  unfold mount. destruct (truthy (defaultValueForEditor p v));
    apply strictEq_refl.
Qed.

Lemma step_settled (st : state) (e : event) :
  strictEq (prevValue st) (value st) = true ->
  strictEq (prevValue (step p st e)) (value (step p st e)) = true.
Proof.
  intros E. destruct e; cbn [step]; try apply render_settles.
  - destruct (selectorShown p); [apply render_settles | exact E].
  - destruct (Stream.elapse ms (subscription st)) as [s [w|]];
      [apply render_settles | exact E].
  - exact E.
Qed.

(** Between two events [prevValue] is always the [value] prop. *)
Lemma run_settled (st : state) (es : list event) :
  strictEq (prevValue st) (value st) = true ->
  strictEq (prevValue (run p st es)) (value (run p st es)) = true.
Proof.
  revert st; induction es as [|e es IH]; intros st E; [exact E|].
  apply (IH (step p st e)). now apply step_settled.
Qed.

Lemma setFullScreen_twice (st : state) :
  setFullScreen negb (setFullScreen negb st) = st.
Proof. destruct st; unfold setFullScreen; cbn. now rewrite negb_involutive. Qed.

Lemma expand_settled (st : state) :
  strictEq (prevValue st) (value st) = true ->
  step p st ExpandClick = setFullScreen negb st.
Proof. intros E. cbn [step]. now apply render_settled. Qed.

(** C9.  In every state the component reaches from its mount, clicking
    the expand button twice gives back the very same state, so the
    full-screen flag and the layout are as before; and a single click
    negates the flag and leaves the editor's text and the language as they
    were. *)
Theorem fullscreen_toggle_twice (v : option str) (es : list event) :
  let st := run p (mount p v) es in
  let st1 := step p st ExpandClick in
  let st2 := step p st1 ExpandClick in
  st2 = st
  /\ fullScreen st2 = fullScreen st
  /\ layout st2 = layout st
  /\ fullScreen st1 = negb (fullScreen st)
  /\ editorValue st1 = editorValue st /\ language st1 = language st
  /\ editorValue st2 = editorValue st /\ language st2 = language st.
Proof.
  intros st st1 st2.
  assert (E : strictEq (prevValue st) (value st) = true)
    by apply run_settled, mount_settled.
  assert (E1 : st1 = setFullScreen negb st) by now apply expand_settled.
  assert (E2 : st2 = st).
  { unfold st2. rewrite expand_settled.
    - rewrite E1. apply setFullScreen_twice.
    - rewrite E1. exact E. }
  rewrite E2. repeat split; rewrite E1; reflexivity.
Qed.

End Settled.

(** ** The debounced emitter *)

Section Emitter.

Import Samples.

Variable p : props.

Lemma edit_frame (st : state) (v : option str) :
  language (step p st (Edit v)) = language st
  /\ delivered (step p st (Edit v)) = delivered st
  /\ subscription (step p st (Edit v))
     = Stream.next (outgoing p (language st) (or_else v [])) (subscription st).
Proof.
  cbn [step].
  destruct (render_frame (handleChange p v st)) as (_ & L & _ & S & D).
  rewrite L, S, D. now repeat split.
Qed.

(** A step that is no edit, on a stream in which nothing waits, calls
    nobody and leaves nothing waiting. *)
Lemma step_idle (st : state) (e : event) :
  Stream.idle (subscription st) = true -> isEdit e = false ->
  delivered (step p st e) = delivered st
  /\ Stream.idle (subscription (step p st e)) = true.
Proof.
  intros I N. destruct e; try discriminate N; cbn [step].
  - destruct (selectorShown p); [|now split].
    destruct (render_frame (setLanguage l st)) as (_ & _ & _ & S & D).
    rewrite S, D. now split.
  - destruct (render_frame (setFullScreen negb st)) as (_ & _ & _ & S & D).
    rewrite S, D. now split.
  - destruct (render_frame (setValueProp v st)) as (_ & _ & _ & S & D).
    rewrite S, D. now split.
  - destruct (subscription st) as [|[[w r]|]]; try discriminate I;
      cbn; now split.
  - now split.
Qed.

Lemma run_idle (st : state) (es : list event) :
  Stream.idle (subscription st) = true ->
  forallb (fun e => negb (isEdit e)) es = true ->
  delivered (run p st es) = delivered st.
Proof.
  revert st; induction es as [|e es IH]; intros st I N; [reflexivity|].
  cbn [forallb] in N. apply andb_true_iff in N as [Ne N].
  apply negb_true_iff in Ne.
  destruct (step_idle st e I Ne) as [D I'].
  change (run p st (e :: es)) with (run p (step p st e) es).
  now rewrite (IH _ I' N).
Qed.

(** C2 (as amended).  When nothing is pushed to the stream -- the initial
    content is empty, so that the mount effect pushes nothing, and no edit
    follows -- the host's [onChange] is never called; more generally, from
    a state in which nothing waits in the stream, events other than edits
    add no call. *)
Theorem no_push_no_change (v : option str) (es : list event) :
  forallb (fun e => negb (isEdit e)) es = true ->
  (truthy (defaultValueForEditor p v) = false ->
   delivered (run p (mount p v) es) = [])
  /\ (forall st, Stream.idle (subscription st) = true ->
                 delivered (run p st es) = delivered st).
Proof.
  intros N. split.
  - intros T. rewrite run_idle; [apply mount_delivered | | exact N].
    rewrite mount_subscription, T. reflexivity.
  - intros st I. now apply run_idle.
Qed.

End Emitter.

Lemma no_push_no_change_witness :
  delivered (run Samples.text_field (mount Samples.text_field None)
               [Elapse 5000; ExpandClick; Elapse 5000; Unmount]) = [].
Proof.
  apply (proj1 (no_push_no_change Samples.text_field None
                  [Elapse 5000; ExpandClick; Elapse 5000; Unmount]
                  eq_refl)).
  reflexivity.
Defined.

(** C2 (as stated) fails: a text field mounted on the stored value [abc]
    pushes its initial content in the mount effect, and one second later,
    without any edit, the host's [onChange] is called with
    [__javascript__;abc]. *)
Lemma no_push_no_change_counterexample :
  forallb (fun e => negb (isEdit e)) [Elapse 1000] = true
  /\ delivered (run Samples.text_field
                  (mount Samples.text_field (Some (lit "abc"))) [Elapse 1000])
     = [ {| target_name := lit "code";
            target_value := lit "__javascript__;abc" |} ]
  /\ delivered (run Samples.text_field
                  (mount Samples.text_field (Some (lit "abc"))) [Elapse 1000])
     <> [].
Proof. repeat split; discriminate. Qed.

Section Debounce.

Variable p : props.

Lemma run_cons (st : state) (e : event) (es : list event) :
  run p st (e :: es) = run p (step p st e) es.
Proof. reflexivity. Qed.

Lemma last_cons (A : Type) (l : list A) (a d : A) :
  last (a :: l) d = last l a.
Proof.
  revert a d; induction l as [|b l IH]; intros a d; [reflexivity|].
  change (last (a :: b :: l) d) with (last (b :: l) d).
  now rewrite (IH b d), (IH b a).
Qed.

(** A value that waits with a full quiet period ahead survives every
    further edit that comes in time, and is handed over once the stream
    has been quiet for a second. *)
Lemma burst_tail (more : list (N * str)) (quiet : N) (st : state) (c : str) :
  subscription st
  = Stream.Subscribed (Some (outgoing p (language st) c, Stream.dueTime)) ->
  forallb (fun dc => fst dc <? 1000) more = true ->
  1000 <= quiet ->
  delivered
    (run p st
       (flat_map (fun dc => [Elapse (fst dc); Edit (Some (snd dc))]) more
        ++ [Elapse quiet]))
  = delivered st
    ++ [ {| target_name := name p;
            target_value := outgoing p (language st) (last_text c more) |} ].
Proof.
  revert st c; induction more as [|[d c'] more IH]; intros st c S G Q.
  - cbn [flat_map app run fold_left step]. rewrite S.
    unfold Stream.elapse, Stream.dueTime.
    destruct (N.leb_spec 1000 quiet) as [_|Hlt]; [|lia].
    match goal with
    | |- delivered (render ?s) = _ =>
        destruct (render_frame s) as (_ & _ & _ & _ & D); rewrite D
    end.
    reflexivity.
  - cbn [forallb fst] in G. apply andb_true_iff in G as [Hd G].
    apply N.ltb_lt in Hd.
    cbn [flat_map fst snd]. rewrite <- !app_comm_cons. rewrite !run_cons.
    set (st1 := step p st (Elapse d)).
    assert (E1 : language st1 = language st /\ delivered st1 = delivered st
                 /\ Stream.active (subscription st1) = true).
    { unfold st1. cbn [step]. rewrite S.
      unfold Stream.elapse, Stream.dueTime.
      destruct (N.leb_spec 1000 d) as [Hle|_]; [lia|]. now repeat split. }
    destruct E1 as (L1 & D1 & A1).
    destruct (edit_frame p st1 (Some c')) as (L2 & D2 & S2).
    rewrite or_else_content in S2.
    set (st2 := step p st1 (Edit (Some c'))) in *.
    assert (S2' : subscription st2
                  = Stream.Subscribed
                      (Some (outgoing p (language st2) c', Stream.dueTime))).
    { rewrite S2, L2. destruct (subscription st1); [discriminate A1|].
      reflexivity. }
    rewrite app_nil_l, (IH st2 c' S2' G Q), D2, D1, L2, L1.
    unfold last_text. cbn [List.map snd]. now rewrite last_cons.
Qed.

Lemma setSubscription_same (st : state) :
  setSubscription (subscription st) st = st.
Proof. now destruct st. Qed.

Lemma step_elapse (st : state) (ms : N) :
  step p st (Elapse ms) =
  match subscription st with
  | Stream.Subscribed (Some (v, r)) =>
      if r <=? ms
      then render (handleOnChange p v
                     (setSubscription (Stream.Subscribed None) st))
      else setSubscription (Stream.Subscribed (Some (v, r - ms))) st
  | _ => st
  end.
Proof.
  cbn [step]. destruct (subscription st) as [|[[v r]|]] eqn:S; cbn.
  - rewrite <- S. apply setSubscription_same.
  - now destruct (r <=? ms).
  - rewrite <- S. apply setSubscription_same.
Qed.

(** Time that passes in two parts passes as a whole. *)
Lemma elapse_add (st : state) (a b : N) :
  step p (step p st (Elapse a)) (Elapse b) = step p st (Elapse (a + b)).
Proof.
  rewrite (step_elapse st a), (step_elapse st (a + b)).
  destruct (subscription st) as [|[[w r]|]] eqn:S.
  - now rewrite step_elapse, S.
  - destruct (N.leb_spec r a) as [Ha|Ha].
    + destruct (N.leb_spec r (a + b)) as [_|Hab]; [|lia].
      rewrite step_elapse.
      match goal with
      | |- context [subscription (render ?s)] =>
          destruct (render_frame s) as (_ & _ & _ & S' & _); rewrite S'
      end.
      reflexivity.
    + rewrite step_elapse. cbn [subscription setSubscription].
      destruct (N.leb_spec (r - a) b) as [Hb|Hb];
        destruct (N.leb_spec r (a + b)) as [Hab|Hab]; try lia.
      * reflexivity.
      * unfold setSubscription; cbn.
        now replace (r - a - b) with (r - (a + b)) by lia.
  - now rewrite step_elapse, S.
Qed.

(** C5.  On a subscribed stream, a burst of edits in which each edit
    follows the one before by less than 1000 ms, and which is followed by
    at least 1000 ms without an edit, adds exactly one call of the host's
    [onChange]; it carries the last text of the burst, encoded. *)
Theorem burst_one_change (st : state) (c0 : str) (more : list (N * str)) (quiet : N) :
  Stream.active (subscription st) = true ->
  forallb (fun dc => fst dc <? 1000) more = true ->
  1000 <= quiet ->
  delivered (run p st (burst c0 more quiet))
  = delivered st
    ++ [ {| target_name := name p;
            target_value := encode p (language st) (last_text c0 more) |} ].
Proof.
  intros A G Q. unfold burst. rewrite run_cons.
  destruct (edit_frame p st (Some c0)) as (L & D & S).
  rewrite or_else_content in S.
  set (st1 := step p st (Edit (Some c0))) in *.
  assert (S' : subscription st1
               = Stream.Subscribed
                   (Some (outgoing p (language st1) c0, Stream.dueTime))).
  { rewrite S, L. destruct (subscription st); [discriminate A|]. reflexivity. }
  rewrite (burst_tail more quiet st1 c0 S' G Q), D, L.
  unfold encode. now rewrite or_else_content.
Qed.

(** Once unsubscribed, always unsubscribed, and nobody is called. *)
Lemma step_unsubscribed (st : state) (e : event) :
  subscription st = Stream.Unsubscribed ->
  delivered (step p st e) = delivered st
  /\ subscription (step p st e) = Stream.Unsubscribed.
Proof.
  intros U. destruct e; cbn [step].
  - destruct (edit_frame p st v) as (_ & D & S). cbn [step] in D, S.
    rewrite D, S, U. now split.
  - destruct (selectorShown p); [|now split].
    destruct (render_frame (setLanguage l st)) as (_ & _ & _ & S & D).
    rewrite S, D. now split.
  - destruct (render_frame (setFullScreen negb st)) as (_ & _ & _ & S & D).
    rewrite S, D. now split.
  - destruct (render_frame (setValueProp v st)) as (_ & _ & _ & S & D).
    rewrite S, D. now split.
  - rewrite U. cbn. now split.
  - now split.
Qed.

Lemma run_unsubscribed (st : state) (es : list event) :
  subscription st = Stream.Unsubscribed ->
  delivered (run p st es) = delivered st.
Proof.
  revert st; induction es as [|e es IH]; intros st U; [reflexivity|].
  destruct (step_unsubscribed st e U) as [D U'].
  rewrite run_cons. now rewrite (IH _ U').
Qed.

(** C8.  After the unmount nothing that follows calls the host's
    [onChange] again; in particular an edit made less than 1000 ms before
    the unmount is never reported. *)
Theorem unmount_silences (st : state) (es : list event) :
  delivered (run p (step p st Unmount) es) = delivered st
  /\ (forall (c : option str) (d : N),
        d < 1000 ->
        delivered (run p st (Edit c :: Elapse d :: Unmount :: es))
        = delivered st).
Proof.
  split.
  - now rewrite run_unsubscribed.
  - intros c d Hd. rewrite !run_cons.
    rewrite run_unsubscribed by reflexivity.
    destruct (edit_frame p st c) as (_ & D & S).
    set (st1 := step p st (Edit c)) in *.
    cbn [step delivered setSubscription]. rewrite S.
    destruct (subscription st) as [|w]; cbn; [exact D|].
    unfold Stream.dueTime. destruct (N.leb_spec 1000 d); [lia | exact D].
Qed.

End Debounce.

Lemma burst_one_change_witness :
  delivered
    (run Samples.text_field (mount Samples.text_field None)
       (burst (lit "a") [(300, lit "ab"); (999, lit "abc")] 1000))
  = [ {| target_name := lit "code";
         target_value := lit "__javascript__;abc" |} ].
Proof.
  apply (burst_one_change Samples.text_field (mount Samples.text_field None)
           (lit "a") [(300, lit "ab"); (999, lit "abc")] 1000);
    [reflexivity | reflexivity | lia].
Defined.

Lemma unmount_silences_witness :
  delivered
    (run Samples.text_field (mount Samples.text_field None)
       [Edit (Some (lit "a")); Elapse 999; Unmount; Elapse 5000])
  = [].
Proof.
  apply (proj2 (unmount_silences Samples.text_field
                  (mount Samples.text_field None) [Elapse 5000])
           (Some (lit "a")) 999).
  lia.
Defined.

(** * Further properties of the component *)

(** ** What one event changes *)

Section StepFrame.

Import Trace.

Variable p : props.

Lemma step_language (st : state) (e : event) :
  language (step p st e)
  = match e with
    | SelectLanguage l => if selectorShown p then l else language st
    | _ => language st
    end.
Proof.
  destruct e; cbn [step];
    try (match goal with
         | |- language (render ?s) = _ =>
             destruct (render_frame s) as (_ & L & _); rewrite L
         end; reflexivity).
  - destruct (selectorShown p); [|reflexivity].
    now destruct (render_frame (setLanguage l st)) as (_ & -> & _).
  - destruct (Stream.elapse ms (subscription st)) as [s [w|]]; [|reflexivity].
    match goal with
    | |- language (render ?s) = _ =>
        destruct (render_frame s) as (_ & L & _); rewrite L
    end. reflexivity.
  - reflexivity.
Qed.

Lemma step_fullScreen (st : state) (e : event) :
  fullScreen (step p st e)
  = if isExpand e then negb (fullScreen st) else fullScreen st.
Proof.
  destruct e; cbn [step isExpand];
    try (match goal with
         | |- fullScreen (render ?s) = _ =>
             destruct (render_frame s) as (_ & _ & F & _); rewrite F
         end; reflexivity).
  - destruct (selectorShown p); [|reflexivity].
    now destruct (render_frame (setLanguage l st)) as (_ & _ & -> & _).
  - destruct (Stream.elapse ms (subscription st)) as [s [w|]]; [|reflexivity].
    match goal with
    | |- fullScreen (render ?s) = _ =>
        destruct (render_frame s) as (_ & _ & F & _); rewrite F
    end. reflexivity.
  - reflexivity.
Qed.

Lemma step_delivered (st : state) (e : event) :
  delivered (step p st e) = delivered st ++ fired p st e.
Proof.
  destruct e; cbn [step fired]; rewrite ?app_nil_r;
    try (match goal with
         | |- delivered (render ?s) = _ =>
             destruct (render_frame s) as (_ & _ & _ & _ & D); rewrite D
         end; reflexivity).
  - destruct (selectorShown p); [|reflexivity].
    now destruct (render_frame (setLanguage l st)) as (_ & _ & _ & _ & ->).
  - destruct (Stream.elapse ms (subscription st)) as [s [w|]]; cbn [snd].
    + match goal with
      | |- delivered (render ?s) = _ =>
          destruct (render_frame s) as (_ & _ & _ & _ & D); rewrite D
      end. reflexivity.
    + now rewrite app_nil_r.
  - reflexivity.
Qed.

Lemma step_subscription (st : state) (e : event) :
  subscription (step p st e)
  = match e with
    | Edit v =>
        Stream.next (outgoing p (language st) (or_else v [])) (subscription st)
    | Elapse ms => fst (Stream.elapse ms (subscription st))
    | Unmount => Stream.Unsubscribed
    | _ => subscription st
    end.
Proof.
  destruct e; cbn [step];
    try (match goal with
         | |- subscription (render ?s) = _ =>
             destruct (render_frame s) as (_ & _ & _ & S & _); rewrite S
         end; reflexivity).
  - destruct (selectorShown p); [|reflexivity].
    now destruct (render_frame (setLanguage l st)) as (_ & _ & _ & -> & _).
  - destruct (Stream.elapse ms (subscription st)) as [s [w|]]; cbn [fst];
      [|reflexivity].
    match goal with
    | |- subscription (render ?s) = _ =>
        destruct (render_frame s) as (_ & _ & _ & S & _); rewrite S
    end. reflexivity.
  - reflexivity.
Qed.

End StepFrame.

(** ** What a whole life of the component adds up to *)

Section Traces.

Import Trace Samples.

Variable p : props.

Lemma mount_fullScreen (v : option str) : fullScreen (mount p v) = false.
Proof. unfold mount. now destruct (truthy (defaultValueForEditor p v)). Qed.

Lemma strictEq_eq (a b : option str) : strictEq a b = true -> a = b.
Proof.
  destruct a as [x|], b as [y|]; cbn; try discriminate; [|reflexivity].
  intros E. apply eqb_eq in E. now subst.
Qed.

Lemma run_language (st : state) (es : list event) :
  language (run p st es)
  = if selectorShown p then last (selections es) (language st)
    else language st.
Proof.
  revert st; induction es as [|e es IH]; intros st.
  - cbn. now destruct (selectorShown p).
  - rewrite run_cons, IH, step_language.
    destruct e; try reflexivity.
    change (selections (SelectLanguage l :: es)) with (l :: selections es).
    rewrite last_cons. now destruct (selectorShown p).
Qed.

(** X6.  The language of the editor is the initial language
    until the selector is used, and from then on the last language chosen
    there; where the selector is not rendered (JSON mode, configured
    language) it is the initial language for good.  No edit, no value
    passed by the host and no report to the host changes it. *)
Theorem language_last_selection (v : option str) (es : list event) :
  language (run p (mount p v) es)
  = if selectorShown p
    then last (selections es) (initialLanguage p v)
    else initialLanguage p v.
Proof.
  rewrite run_language.
  rewrite mount_language.
  reflexivity.
Qed.

Lemma run_fullScreen (st : state) (es : list event) :
  fullScreen (run p st es) = xorb (fullScreen st) (Nat.odd (expandClicks es)).
Proof.
  revert st; induction es as [|e es IH]; intros st.
  - cbn. now destruct (fullScreen st).
  - rewrite run_cons, IH, step_fullScreen. unfold expandClicks.
    cbn [filter]. destruct (isExpand e); [|reflexivity].
    cbn [List.length]. rewrite Nat.odd_succ, <- Nat.negb_odd.
    now destruct (fullScreen st), (Nat.odd (List.length (filter isExpand es))).
Qed.

(** X7.  The component is in full-screen mode exactly when
    the expand button has been clicked an odd number of times since the
    mount, whatever else happened in between. *)
Theorem fullScreen_parity (v : option str) (es : list event) :
  fullScreen (run p (mount p v) es) = Nat.odd (expandClicks es).
Proof.
  rewrite run_fullScreen.
  rewrite mount_fullScreen.
  reflexivity.
Qed.

(** X8.  After every event [prevValue] is the [value] prop the host passes
    at that moment, whether the host changed the prop while it handled a
    call of [onChange] or by rendering the field anew. *)
Theorem prevValue_tracks_host (v : option str) (es : list event) :
  prevValue (run p (mount p v) es) = value (run p (mount p v) es).
Proof.
  apply strictEq_eq.
  apply run_settled.
  apply mount_settled.
Qed.

(** X9.  When the host renders the field with another value, outside a
    call of [onChange], the editor's text becomes the decoded content of
    that value if it differs from the value passed before, and stays what
    it is otherwise; the configured default value is not used here, the
    language is not re-read from the value, and nothing is pushed or
    reported.  When a report is made, the [value] prop becomes the host's
    answer to it: an answer that is the reported value itself leaves the
    editor's text as it is, any other answer replaces the text by the
    decoded content of the answer; the language stays. *)
Theorem external_value_update (v0 : option str) (es : list event) :
  let st := run p (mount p v0) es in
  (forall v : option str,
      let st' := step p st (NewValue v) in
      editorValue st'
      = (if strictEq (value st) v then editorValue st else contentFromValue v)
      /\ value st' = v /\ prevValue st' = v
      /\ language st' = language st
      /\ fullScreen st' = fullScreen st
      /\ subscription st' = subscription st
      /\ delivered st' = delivered st)
  /\ (forall (w : str) (r ms : N),
        subscription st = Stream.Subscribed (Some (w, r)) ->
        r <= ms ->
        let answer :=
          onChange p {| target_name := name p; target_value := w |} (value st) in
        let st' := step p st (Elapse ms) in
        editorValue st'
        = (if strictEq (Some w) answer then editorValue st
           else contentFromValue answer)
        /\ value st' = answer /\ prevValue st' = answer
        /\ language st' = language st).
Proof.
  intros st.
  assert (E : prevValue st = value st)
    by apply strictEq_eq, run_settled, mount_settled.
  split.
  - intros v st'. unfold st'. cbn [step]. unfold render.
    cbn [prevValue value setValueProp]. rewrite E.
    destruct (strictEq (value st) v) eqn:Q; cbn.
    + apply strictEq_eq in Q. now rewrite E, Q.
    + now repeat split.
  - intros w r ms S R answer st'. unfold st'.
    rewrite step_elapse, S.
    destruct (N.leb_spec r ms) as [_|Hlt]; [|lia].
    unfold render, handleOnChange.
    cbn [prevValue value setPrevValue setValueProp callOnChange
           setSubscription].
    fold answer.
    destruct (strictEq (Some w) answer) eqn:Q; cbn.
    + apply strictEq_eq in Q. now rewrite Q.
    + now repeat split.
Qed.

Lemma run_delivered_names (st : state) (es : list event) :
  Forall (fun ev => target_name ev = name p) (delivered st) ->
  Forall (fun ev => target_name ev = name p) (delivered (run p st es)).
Proof.
  revert st; induction es as [|e es IH]; intros st H; [exact H|].
  rewrite run_cons. apply IH. rewrite step_delivered.
  apply Forall_app. split; [exact H|].
  destruct e; cbn [fired]; try constructor.
  destruct (snd (Stream.elapse ms (subscription st))); repeat constructor.
Qed.

(** X10.  Every call of the host's [onChange] names this field. *)
Theorem delivered_names (v : option str) (es : list event) :
  Forall (fun ev => target_name ev = name p)
    (delivered (run p (mount p v) es)).
Proof.
  apply run_delivered_names.
  rewrite mount_delivered.
  constructor.
Qed.

Lemma step_bounded (st : state) (e : event) :
  (List.length (delivered (step p st e))
   + waiting (subscription (step p st e))
   <= List.length (delivered st) + waiting (subscription st)
      + (if isEdit e then 1 else 0))%nat.
Proof.
  rewrite step_delivered, step_subscription, length_app.
  destruct e; cbn [fired isEdit List.length]; try lia.
  - destruct (subscription st) as [|w]; cbn; lia.
  - destruct (subscription st) as [|[[w r]|]]; cbn; try lia.
    destruct (r <=? ms); cbn; lia.
  - cbn. lia.
Qed.

Lemma run_bounded (st : state) (es : list event) :
  (List.length (delivered (run p st es))
   + waiting (subscription (run p st es))
   <= List.length (delivered st) + waiting (subscription st) + edits es)%nat.
Proof.
  revert st; induction es as [|e es IH]; intros st; [cbn; lia|].
  rewrite run_cons. pose proof (IH (step p st e)) as H1.
  pose proof (step_bounded st e) as H2.
  unfold edits in *. cbn [filter].
  destruct (isEdit e); cbn [List.length]; lia.
Qed.

(** X11.  The host's [onChange] is never called more often than the
    widget reported a text, plus once for a non-empty initial content. *)
Theorem delivered_bounded (v : option str) (es : list event) :
  (List.length (delivered (run p (mount p v) es))
   <= (if truthy (defaultValueForEditor p v) then 1 else 0) + edits es)%nat.
Proof.
  pose proof (run_bounded (mount p v) es) as H.
  rewrite mount_delivered, mount_subscription in H.
  destruct (truthy (defaultValueForEditor p v)); cbn in H; lia.
Qed.

End Traces.

Lemma external_value_update_witness :
  editorValue
    (run Samples.text_field (mount Samples.text_field None)
       [Edit (Some (lit "a__;b")); Elapse 1000])
  = lit "a__;b"
  /\ value
       (run Samples.text_field (mount Samples.text_field None)
          [Edit (Some (lit "a__;b")); Elapse 1000])
     = Some (lit "__javascript__;a__;b")
  /\ editorValue
       (run Samples.json_field (mount Samples.json_field None)
          [Edit (Some (lit "[1]")); Elapse 1000])
     = [].
Proof.
  split; [|split].
  - apply (proj2 (external_value_update Samples.text_field None
                    [Edit (Some (lit "a__;b"))])
             (lit "__javascript__;a__;b") 1000 1000 eq_refl ltac:(lia)).
  - apply (proj2 (external_value_update Samples.text_field None
                    [Edit (Some (lit "a__;b"))])
             (lit "__javascript__;a__;b") 1000 1000 eq_refl ltac:(lia)).
  - apply (proj2 (external_value_update Samples.json_field None
                    [Edit (Some (lit "[1]"))])
             (lit "[1]") 1000 1000 eq_refl ltac:(lia)).
Defined.

(** ** Which match the pattern picks *)

Section Extremal.

Import RegExp RegExpFacts.

Lemma dot_star_longest (t cap rest x r : str) :
  dot_star_closing t = Some (cap, rest) ->
  t = x ++ closing ++ r -> dotted x = true ->
  (List.length x <= List.length cap)%nat.
Proof.
  revert cap rest x; induction t as [|c t IH]; intros cap rest x H E D.
  - discriminate H.
  - destruct x as [|c0 x]; [cbn; lia|].
    change ((c0 :: x) ++ closing ++ r) with (c0 :: (x ++ closing ++ r)) in E.
    assert (Ec : c = c0) by congruence.
    assert (Et : t = x ++ closing ++ r) by congruence.
    subst c0. clear E. cbn [dotted forallb] in D.
    apply andb_true_iff in D as [L D]. apply negb_true_iff in L.
    rewrite dot_star_cons in H. cbv zeta in H. rewrite L in H.
    pose proof (dot_star_complete x r D) as C. rewrite <- Et in C.
    destruct (dot_star_closing t) as [[cap1 rest1]|] eqn:R; [|contradiction].
    injection H as <- _. cbn [List.length].
    pose proof (IH cap1 rest1 x eq_refl Et D). lia.
Qed.

Lemma match_here_longest (s cap post x post' : str) :
  match_here s = Some (cap, post) ->
  s = opening ++ x ++ closing ++ post' -> x <> [] -> dotted x = true ->
  (List.length x <= List.length cap)%nat.
Proof.
  intros H -> Hx D. unfold match_here in H. rewrite strip_prefix_app in H.
  destruct x as [|c x]; [contradiction|].
  cbn [dotted forallb] in D. apply andb_true_iff in D as [L D].
  apply negb_true_iff in L.
  change ((c :: x) ++ closing ++ post') with (c :: x ++ closing ++ post') in H.
  unfold dot_plus_closing in H. rewrite L in H.
  destruct (dot_star_closing (x ++ closing ++ post')) as [[cap1 rest1]|] eqn:R;
    [|discriminate H].
  injection H as <- _. cbn [List.length].
  pose proof (dot_star_longest _ _ _ x post' R eq_refl D). lia.
Qed.

Lemma exec_extremal (s pre cap post pre' x post' : str) :
  exec s = Some (pre, cap, post) ->
  s = pre' ++ opening ++ x ++ closing ++ post' ->
  x <> [] -> dotted x = true ->
  (List.length pre <= List.length pre')%nat
  /\ (List.length pre' = List.length pre ->
      (List.length x <= List.length cap)%nat).
Proof.
  revert pre pre'; induction s as [|c s IH]; intros pre pre' H E Hx D;
    rewrite exec_eq in H.
  - destruct (match_here []) as [[? ?]|] eqn:M; [|discriminate H].
    injection H as <- <- <-. split; [cbn; lia|].
    intros Hl. destruct pre'; [|discriminate Hl].
    now apply (match_here_longest _ _ _ _ _ M E).
  - destruct (match_here (c :: s)) as [[cap0 post0]|] eqn:M.
    + injection H as <- <- <-. split; [cbn; lia|].
      intros Hl. destruct pre'; [|discriminate Hl].
      now apply (match_here_longest _ _ _ _ _ M E).
    + destruct (exec s) as [[[pre0 cap0] post0]|] eqn:X; [|discriminate H].
      injection H as <- <- <-.
      destruct pre' as [|c' pre'].
      * exfalso. apply (match_here_complete x post' Hx D).
        change ([] ++ opening ++ x ++ closing ++ post')
          with (opening ++ x ++ closing ++ post') in E.
        now rewrite <- E.
      * change ((c' :: pre') ++ opening ++ x ++ closing ++ post')
          with (c' :: (pre' ++ opening ++ x ++ closing ++ post')) in E.
        assert (E' : s = pre' ++ opening ++ x ++ closing ++ post')
          by congruence.
        destruct (IH pre0 pre' eq_refl E' Hx D) as [A B].
        split; [cbn; lia|]. intros Hl. apply B. now injection Hl.
Qed.

(** X1.  The pattern finds a match in a value exactly when the value has
    a part [__x__;] with [x] not empty and without line terminator.  What
    it returns is such a part, with the text before and after it: of all
    such parts one that starts leftmost, and among those that start there
    the one with the longest [x]. *)
Theorem match_leftmost_longest (s : str) :
  match exec s with
  | Some (pre, cap, post) =>
      s = pre ++ opening ++ cap ++ closing ++ post
      /\ cap <> [] /\ dotted cap = true
      /\ forall pre' x post' : str,
           s = pre' ++ opening ++ x ++ closing ++ post' ->
           x <> [] -> dotted x = true ->
           (List.length pre <= List.length pre')%nat
           /\ (List.length pre' = List.length pre ->
               (List.length x <= List.length cap)%nat)
  | None => marker_free s
  end.
Proof.
  destruct (exec s) as [[[pre cap] post]|] eqn:E.
  - destruct (exec_sound s pre cap post E) as (Es & Hc & Dc).
    split; [exact Es|]. split; [exact Hc|]. split; [exact Dc|].
    intros pre' x post' Ex Hx Dx.
    now apply (exec_extremal s pre cap post pre' x post' E Ex Hx Dx).
  - now apply exec_None_iff.
Qed.

Lemma match_leftmost_longest_witness :
  marker_free (lit "no marker__ here;")
  /\ lit "xx__a__;__b__;c" = lit "xx" ++ opening ++ lit "a__;__b" ++ closing ++ lit "c"
  /\ (List.length (lit "xx") <= List.length (lit "xx__a__;"))%nat.
Proof.
  split; [|split].
  - exact (match_leftmost_longest (lit "no marker__ here;")).
  - exact (proj1 (match_leftmost_longest (lit "xx__a__;__b__;c"))).
  - exact (proj1 (proj2 (proj2 (proj2
             (match_leftmost_longest (lit "xx__a__;__b__;c"))))
             (lit "xx__a__;") (lit "b") (lit "c")
             eq_refl ltac:(discriminate) eq_refl)).
Defined.

End Extremal.

(** ** JSON mode *)

Section JsonMode.

Lemma endsWith_suffix (s suffix : str) :
  endsWith s suffix = true <-> exists pre, s = pre ++ suffix.
Proof.
  unfold endsWith. rewrite andb_true_iff, Nat.leb_le, eqb_eq. split.
  - intros [_ E].
    set (n := (List.length s - List.length suffix)%nat) in E.
    exists (firstn n s). rewrite <- E. symmetry. apply firstn_skipn.
  - intros [pre ->]. rewrite length_app. split; [lia|].
    replace (List.length pre + List.length suffix - List.length suffix)%nat
      with (List.length pre + 0)%nat by lia.
    now rewrite skipn_app, Nat.add_0_r, skipn_all, Nat.sub_diag.
Qed.

(** X2.  A field is in JSON mode exactly when the identifier of
    its custom field ends in [code-editor-json], whatever comes before. *)
Theorem isJson_suffix (p : props) :
  isJson p = true
  <-> exists pre, customField p = pre ++ lit "code-editor-json".
Proof.
  unfold isJson.
  apply endsWith_suffix.
Qed.

Lemma isJson_suffix_witness :
  isJson Samples.json_field = true
  /\ isJson {| customField := lit "global::code-editor-json";
               attr_options := None; name := lit "f";
               onChange := Samples.ignoring |} = true.
Proof.
  split.
  - apply (proj2 (isJson_suffix Samples.json_field)).
    exists (lit "plugin::strapi-code-editor-custom-field."). reflexivity.
  - apply (proj2 (isJson_suffix _)). exists (lit "global::"). reflexivity.
Defined.

End JsonMode.

(** ** What the mount reports *)

Section MountReport.

Import RegExp RegExpFacts Trace.

Variable p : props.

Lemma defaultValue_truthy (d : str) :
  defaultValue p = Some d -> truthy d = true.
Proof.
  unfold defaultValue. destruct (attr_options p) as [o|]; [|discriminate].
  destruct (opt_defaultValue o) as [d'|]; cbn; [|discriminate].
  destruct (truthy d') eqn:T; [|discriminate]. now intros [= <-].
Qed.

(** X3.  For a value of the declared type [null | string]
    the initial content is the decoded content when that is not empty, and
    otherwise the configured default value, or the empty string when none
    is configured: the test for an empty object never decides. *)
Theorem initial_content_typed (v : option str) :
  editorValue (mount p v)
  = if truthy (contentFromValue v) then contentFromValue v
    else match defaultValue p with Some d => d | None => [] end.
Proof.
  rewrite mount_editorValue. unfold defaultValueForEditor.
  destruct (truthy (contentFromValue v)) eqn:T; cbn [negb andb orb].
  - destruct v as [s|]; [|discriminate T].
    cbn [typeof_object]. now rewrite andb_false_r.
  - assert (E : contentFromValue v = [])
      by (destruct (contentFromValue v); [reflexivity | discriminate T]).
    rewrite E.
    destruct (defaultValue p) as [d|] eqn:Dv; cbn [truthy_opt].
    + rewrite (defaultValue_truthy d Dv). cbn [orb or_else].
      now rewrite (defaultValue_truthy d Dv).
    + now rewrite andb_false_r.
Qed.

Lemma mount_elapse (v : option str) (q : N) :
  1000 <= q ->
  delivered (run p (mount p v) [Elapse q])
  = if truthy (defaultValueForEditor p v)
    then [ {| target_name := name p;
              target_value := outgoing p (initialLanguage p v)
                                (defaultValueForEditor p v) |} ]
    else [].
Proof.
  intros Q. cbn [run fold_left].
  rewrite step_delivered, mount_delivered. cbn [fired app].
  rewrite mount_subscription.
  destruct (truthy (defaultValueForEditor p v)); [|reflexivity].
  unfold Stream.elapse, Stream.dueTime.
  destruct (N.leb_spec 1000 q); [reflexivity | lia].
Qed.

(** X4.  A second after the mount, without any edit, the
    host's [onChange] has been called once with the encoded initial content
    when that content is not empty, and not at all when it is empty. *)
Theorem mount_reports (v : option str) (q : N) :
  1000 <= q ->
  delivered (run p (mount p v) [Elapse q])
  = if truthy (defaultValueForEditor p v)
    then [ {| target_name := name p;
              target_value := encode p (initialLanguage p v)
                                (defaultValueForEditor p v) |} ]
    else [].
Proof.
  intros Q. unfold encode. rewrite or_else_content. now apply mount_elapse.
Qed.

Lemma selectorShown_true :
  selectorShown p = true ->
  isJson p = false /\ truthy_opt (languageFromOptions p) = false.
Proof.
  unfold selectorShown. intros H. apply andb_true_iff in H as [A B].
  now apply negb_true_iff in A, B.
Qed.

Lemma selectorShown_false :
  selectorShown p = false ->
  isJson p || truthy_opt (languageFromOptions p) = true.
Proof.
  unfold selectorShown.
  now destruct (isJson p), (truthy_opt (languageFromOptions p)).
Qed.

Lemma outgoing_shown (l c : str) :
  selectorShown p = true ->
  outgoing p l c = lit "__" ++ l ++ lit "__;" ++ c.
Proof.
  intros H. destruct (selectorShown_true H) as [J C].
  unfold outgoing. now rewrite J, C.
Qed.

Lemma outgoing_hidden (l c : str) :
  selectorShown p = false -> outgoing p l c = c.
Proof.
  intros H. unfold outgoing. now rewrite (selectorShown_false H).
Qed.

Lemma initialLanguage_default (v : option str) :
  truthy_opt (languageFromOptions p) = false ->
  languageFromValue v = None ->
  initialLanguage p v = defaultLanguage p.
Proof.
  intros C V. unfold initialLanguage, or_else. rewrite V.
  destruct (languageFromOptions p) as [l|]; [|reflexivity].
  cbn [truthy_opt] in C. now rewrite C.
Qed.

(** X5.  What the mount reports for a non-empty stored value:
    where the selector is rendered, a value [__<x>__;<rest>] ([x] usable as
    a tag, [rest] not empty and without [__;] on its first line) is
    reported as it is, and a value without any marker is reported with the
    tag of the default language put in front; where the selector is not
    rendered, a value without any marker is reported as it is. *)
Theorem mount_reports_stored_value (q : N) :
  1000 <= q ->
  (selectorShown p = true ->
   forall x rest : str,
     x <> [] -> dotted x = true -> rest <> [] ->
     includes (first_line rest) closing = false ->
     delivered
       (run p (mount p (Some (lit "__" ++ x ++ lit "__;" ++ rest))) [Elapse q])
     = [ {| target_name := name p;
            target_value := lit "__" ++ x ++ lit "__;" ++ rest |} ])
  /\ (selectorShown p = true ->
      forall s : str,
        s <> [] -> marker_free s ->
        delivered (run p (mount p (Some s)) [Elapse q])
        = [ {| target_name := name p;
               target_value :=
                 lit "__" ++ defaultLanguage p ++ lit "__;" ++ s |} ])
  /\ (selectorShown p = false ->
      forall s : str,
        s <> [] -> marker_free s ->
        delivered (run p (mount p (Some s)) [Elapse q])
        = [ {| target_name := name p; target_value := s |} ]).
Proof.
  intros Q. split; [|split].
  - intros Sh x rest Hx D Hr F.
    pose proof (decode_tagged x rest Hx D F) as E.
    set (V := lit "__" ++ x ++ lit "__;" ++ rest) in *.
    rewrite (mount_elapse _ q Q).
    pose proof (f_equal fst E) as El. pose proof (f_equal snd E) as Ec.
    unfold decode in El, Ec. cbn [fst snd] in El, Ec. clear E.
    assert (T : truthy (contentFromValue (Some V)) = true)
      by (rewrite Ec; now destruct rest).
    assert (K : defaultValueForEditor p (Some V) = rest)
      by (rewrite <- Ec; exact (content_kept p V T)).
    assert (L : initialLanguage p (Some V) = x)
      by exact (initialLanguage_from_value p (Some V) x
                  (proj2 (selectorShown_true Sh)) El).
    rewrite K, L, (outgoing_shown _ _ Sh).
    now destruct rest.
  - intros Sh s Hs F. rewrite (mount_elapse _ q Q).
    pose proof (decode_marker_free s F) as E.
    pose proof (f_equal fst E) as El. pose proof (f_equal snd E) as Ec.
    unfold decode in El, Ec. cbn [fst snd] in El, Ec. clear E.
    assert (T : truthy (contentFromValue (Some s)) = true)
      by (rewrite Ec; now destruct s).
    rewrite (content_kept p _ T), Ec.
    destruct s as [|s0 s]; [contradiction|]. cbn [truthy].
    rewrite (initialLanguage_default _ (proj2 (selectorShown_true Sh)) El).
    now rewrite (outgoing_shown _ _ Sh).
  - intros Sh s Hs F. rewrite (mount_elapse _ q Q).
    pose proof (decode_marker_free s F) as E.
    pose proof (f_equal fst E) as El. pose proof (f_equal snd E) as Ec.
    unfold decode in El, Ec. cbn [fst snd] in El, Ec. clear E.
    assert (T : truthy (contentFromValue (Some s)) = true)
      by (rewrite Ec; now destruct s).
    rewrite (content_kept p _ T), Ec.
    destruct s as [|s0 s]; [contradiction|]. cbn [truthy].
    now rewrite (outgoing_hidden _ _ Sh).
Qed.

End MountReport.

Lemma mount_reports_witness :
  delivered (run Samples.json_field (mount Samples.json_field None)
               [Elapse 1000])
  = [ {| target_name := lit "settings"; target_value := Samples.a1 |} ].
Proof.
  apply (mount_reports Samples.json_field None 1000). lia.
Defined.

Lemma mount_reports_stored_value_witness :
  delivered (run Samples.text_field
               (mount Samples.text_field (Some Samples.python_value))
               [Elapse 1500])
  = [ {| target_name := lit "code"; target_value := Samples.python_value |} ]
  /\ delivered (run Samples.text_field
                  (mount Samples.text_field (Some (lit "x = 1")))
                  [Elapse 1500])
     = [ {| target_name := lit "code";
            target_value := lit "__javascript__;x = 1" |} ]
  /\ delivered (run Samples.sql_field
                  (mount Samples.sql_field (Some (lit "select 1")))
                  [Elapse 1500])
     = [ {| target_name := lit "query"; target_value := lit "select 1" |} ].
Proof.
  assert (Q : 1000 <= 1500) by lia.
  split; [|split].
  - apply (proj1 (mount_reports_stored_value Samples.text_field 1500 Q)
             eq_refl (lit "python") (lit "print(1)"));
      [discriminate | reflexivity | discriminate | reflexivity].
  - apply (proj1 (proj2 (mount_reports_stored_value
                           Samples.text_field 1500 Q))
             eq_refl (lit "x = 1")); [discriminate|].
    apply RegExpFacts.exec_None_iff. reflexivity.
  - apply (proj2 (proj2 (mount_reports_stored_value
                           Samples.sql_field 1500 Q))
             eq_refl (lit "select 1")); [discriminate|].
    apply RegExpFacts.exec_None_iff. reflexivity.
Defined.

(** ** Tags of the reported values *)

Section Tags.

Import RegExp RegExpFacts Trace.

Variable p : props.

Lemma listed_dotted (l : str) :
  existsb (JS.eqb l) languages = true -> l <> [] /\ dotted l = true.
Proof.
  intros H. apply existsb_exists in H as (x & I & E).
  apply eqb_eq in E. subst x. now apply languages_dotted.
Qed.

Lemma languageFromValue_dotted (v : option str) (l : str) :
  languageFromValue v = Some l -> l <> [] /\ dotted l = true.
Proof.
  destruct v as [s|]; [|discriminate]. intros E.
  destruct (decode_cases s) as [H | (pre & x & post & _ & Hx & D & H)];
    pose proof (f_equal fst H) as H1; unfold decode in H1;
    cbn [fst] in H1; rewrite E in H1.
  - discriminate H1.
  - assert (l = x) by congruence. subst l. now split.
Qed.

Lemma initialLanguage_dotted (v : option str) :
  selectorShown p = true ->
  initialLanguage p v <> [] /\ dotted (initialLanguage p v) = true.
Proof.
  intros Sh. destruct (selectorShown_true p Sh) as [J C].
  destruct (languageFromValue v) as [l|] eqn:V.
  - rewrite (initialLanguage_from_value p v l C V).
    now apply (languageFromValue_dotted v).
  - rewrite (initialLanguage_default p v C V). unfold defaultLanguage.
    rewrite J. split; [discriminate | reflexivity].
Qed.

(** A value with the marker at its start decodes to some language. *)
Lemma tagged_decodes (w : str) :
  tagged w -> exists l, languageFromValue (Some w) = Some l.
Proof.
  intros (l & c & -> & Hl & D).
  pose proof (exec_complete [] l c Hl D) as C.
  change ([] ++ opening ++ l ++ closing ++ c)
    with (lit "__" ++ l ++ lit "__;" ++ c) in C.
  destruct (exec (lit "__" ++ l ++ lit "__;" ++ c))
    as [[[pre cap] post]|] eqn:X; [|contradiction].
  exists cap. pose proof (f_equal fst (decode_match _ _ _ _ X)) as E.
  exact E.
Qed.

Lemma mount_wellTagged (v : option str) :
  selectorShown p = true -> wellTagged (mount p v).
Proof.
  intros Sh. pose proof (initialLanguage_dotted v Sh) as [Hl D].
  unfold wellTagged. rewrite mount_language, mount_delivered.
  split; [now split|]. split; [|constructor].
  intros w r. rewrite mount_subscription.
  destruct (truthy (defaultValueForEditor p v)); [|discriminate].
  intros [= <- _]. rewrite (outgoing_shown p _ _ Sh).
  now exists (initialLanguage p v), (defaultValueForEditor p v).
Qed.

Lemma step_wellTagged (st : state) (e : event) :
  selectorShown p = true ->
  selectsListed [e] = true ->
  wellTagged st -> wellTagged (step p st e).
Proof.
  intros Sh Le ((Hl & D) & W & Dl). unfold wellTagged.
  rewrite step_language, step_subscription, step_delivered.
  split; [|split].
  - destruct e; try (now split). rewrite Sh.
    cbn in Le. rewrite andb_true_r in Le. now apply listed_dotted.
  - intros w r. destruct e; try apply W; try discriminate.
    + destruct (subscription st) as [|s0]; [discriminate|].
      intros [= <- _]. rewrite (outgoing_shown p _ _ Sh).
      now exists (language st), (or_else v []).
    + destruct (subscription st) as [|[[w0 r0]|]] eqn:S; cbn;
        try discriminate.
      destruct (r0 <=? ms); cbn; [discriminate|].
      intros [= <- _]. now apply (W w0 r0).
  - apply Forall_app. split; [exact Dl|].
    destruct e; cbn [fired]; try constructor.
    destruct (subscription st) as [|[[w0 r0]|]] eqn:S; cbn;
      try constructor.
    destruct (r0 <=? ms); cbn; constructor; [|constructor].
    now apply (W w0 r0).
Qed.

Lemma run_wellTagged (st : state) (es : list event) :
  selectorShown p = true ->
  selectsListed es = true ->
  wellTagged st -> wellTagged (run p st es).
Proof.
  intros Sh. revert st; induction es as [|e es IH]; intros st Le W;
    [exact W|].
  unfold selectsListed in Le. cbn [forallb] in Le.
  apply andb_true_iff in Le as [Le1 Le2].
  rewrite run_cons. apply IH; [exact Le2|].
  apply step_wellTagged; try assumption.
  unfold selectsListed. cbn [forallb]. now rewrite Le1.
Qed.

(** X12.  Where the selector is rendered and only its options are
    chosen, every value reported to the host starts with a marker
    [__<l>__;] whose [l] is not empty and has no line terminator, so that
    decoding the reported value finds a language in it. *)
Theorem delivered_tagged (v : option str) (es : list event) :
  selectorShown p = true ->
  selectsListed es = true ->
  Forall (fun ev =>
            tagged (target_value ev)
            /\ exists l, languageFromValue (Some (target_value ev)) = Some l)
    (delivered (run p (mount p v) es)).
Proof.
  intros Sh Le.
  destruct (run_wellTagged (mount p v) es Sh Le (mount_wellTagged v Sh))
    as (_ & _ & F).
  eapply Forall_impl; [|exact F].
  intros ev T. split; [exact T | now apply tagged_decodes].
Qed.

(** X13.  A choice in the selector is not reported by itself:
    the value that waits keeps the tag it was pushed with, so an edit
    followed by a choice is reported with the language of before the
    choice, while a choice followed by an edit is reported with the
    language chosen. *)
Theorem selection_needs_edit (st : state) (l c : str) (q : N) :
  selectorShown p = true ->
  Stream.active (subscription st) = true ->
  1000 <= q ->
  delivered (run p st [Edit (Some c); SelectLanguage l; Elapse q])
  = delivered st
    ++ [ {| target_name := name p;
            target_value := lit "__" ++ language st ++ lit "__;" ++ c |} ]
  /\ delivered (run p st [SelectLanguage l; Edit (Some c); Elapse q])
     = delivered st
       ++ [ {| target_name := name p;
               target_value := lit "__" ++ l ++ lit "__;" ++ c |} ]
  /\ language (run p st [Edit (Some c); SelectLanguage l; Elapse q]) = l.
Proof.
  intros Sh A Q.
  assert (Fire : forall w,
             Stream.elapse q (Stream.Subscribed (Some (w, Stream.dueTime)))
             = (Stream.Subscribed None, Some w)).
  { intros w. unfold Stream.elapse, Stream.dueTime.
    destruct (N.leb_spec 1000 q); [reflexivity | lia]. }
  destruct (subscription st) as [|s0] eqn:S; [discriminate A|].
  split; [|split].
  - cbn [run fold_left].
    rewrite !step_delivered. cbn [fired].
    rewrite !step_subscription, S. cbn [Stream.next].
    rewrite Fire. cbn [snd]. rewrite !app_nil_r, or_else_content.
    now rewrite (outgoing_shown p _ _ Sh).
  - cbn [run fold_left].
    rewrite !step_delivered. cbn [fired].
    rewrite !step_subscription, !step_language, S, Sh. cbn [Stream.next].
    rewrite Fire. cbn [snd]. rewrite !app_nil_r, or_else_content.
    now rewrite (outgoing_shown p _ _ Sh).
  - cbn [run fold_left]. now rewrite !step_language, Sh.
Qed.

End Tags.

Lemma delivered_tagged_witness :
  Forall (fun ev =>
            Trace.tagged (target_value ev)
            /\ exists l, languageFromValue (Some (target_value ev)) = Some l)
    (delivered
       (run Samples.text_field (mount Samples.text_field (Some (lit "x")))
          [Elapse 1000; SelectLanguage (lit "sql"); Edit (Some (lit "select"));
           Elapse 2000])).
Proof.
  apply (delivered_tagged Samples.text_field (Some (lit "x"))
           [Elapse 1000; SelectLanguage (lit "sql"); Edit (Some (lit "select"));
            Elapse 2000]); reflexivity.
Defined.

Lemma selection_needs_edit_witness :
  delivered
    (run Samples.text_field (mount Samples.text_field None)
       [Edit (Some (lit "select 1")); SelectLanguage (lit "sql"); Elapse 1000])
  = [ {| target_name := lit "code";
         target_value := lit "__javascript__;select 1" |} ].
Proof.
  apply (proj1 (selection_needs_edit Samples.text_field
                  (mount Samples.text_field None)
                  (lit "sql") (lit "select 1") 1000
                  eq_refl eq_refl ltac:(lia))).
Defined.
